(** * dailypic: a verification model of [main.py]

    The development embeds the parts of the Daily Portrait application that
    carry behaviour -- the configuration store and its deferred save, the
    camera thread and its frame queue, the cached drawing path of the camera
    view, and the timelapse job -- as executable Rocq definitions, and proves
    properties of them.

    Conventions.
    - A Python [str] is a list of Unicode code points ([list N]); [lit]
      turns an ASCII literal of the source into one.
    - A Python [float] is modelled by an exact rational ([Q]).
    - A [dict] is a [gmap]; [dict.update] is the left-biased union.
    - Code that can raise returns a [result]; [try]/[except] is a match on it.
    - What the interpreter, the toolkit or the operating system decide (the
      text of a float, the outcome of a file operation, what the encoder
      exits with) is an explicit input of the definitions. *)

From Stdlib Require Import ZArith NArith QArith Qround Lia List String Ascii.
From Stdlib Require Import Sorting.Sorted DecimalString.
From stdpp Require Import base option list gmap sorting.
Import ListNotations.

Local Open Scope Z_scope.

(** ** The Python runtime *)

Module Py.

(** A [str]: a sequence of code points. *)
Definition str : Type := list N.

Definition lit (s : string) : str :=
  List.map N_of_ascii (list_ascii_of_string s).
Arguments lit : simpl never.

(** Exceptions the modelled code can meet. *)
Inductive exn : Type :=
| QueueFull
| QueueEmpty
| ZeroDivisionError
| TypeError
| OSError
| UnicodeDecodeError.

Inductive result (A : Type) : Type :=
| Ok (a : A)
| Raise (e : exn).
Arguments Ok {A} a.
Arguments Raise {A} e.

Definition bind {A B : Type} (r : result A) (k : A -> result B) : result B :=
  match r with
  | Ok a => k a
  | Raise e => Raise e
  end.

(** [s.endswith(suffix)] *)
Definition endswith (s suffix : str) : bool :=
  bool_decide (drop (length s - length suffix)%nat s = suffix).

(** [s.endswith((a, b))] with a tuple of suffixes. *)
Definition endswith_any (s : str) (suffixes : list str) : bool :=
  existsb (endswith s) suffixes.

(** [s.startswith(prefix)] *)
Fixpoint startswith (s prefix : str) {struct prefix} : bool :=
  match prefix, s with
  | [], _ => true
  | _ :: _, [] => false
  | p :: prefix', c :: s' => if (p =? c)%N then startswith s' prefix' else false
  end.

(** [s.replace(old, new)]: the occurrences of [old] are found from the left
    and do not overlap.  [skip] counts the characters of an occurrence that
    are still to be passed over. *)
Fixpoint replace_from (old new : str) (skip : nat) (s : str) : str :=
  match s with
  | [] => []
  | c :: s' =>
      match skip with
      | S k => replace_from old new k s'
      | O =>
          if startswith s old
          then new ++ replace_from old new (length old - 1)%nat s'
          else c :: replace_from old new O s'
      end
  end.

Definition replace (s old new : str) : str :=
  match old with
  | [] => new ++ flat_map (fun c => c :: new) s
  | _ :: _ => replace_from old new O s
  end.

(** [s[:n]] for [n >= 0]. *)
Definition slice_to (n : nat) (s : str) : str := take n s.

(** Comparison of two [str]: code point by code point, a proper prefix first. *)
Fixpoint str_le (a b : str) : bool :=
  match a, b with
  | [], _ => true
  | _ :: _, [] => false
  | x :: a', y :: b' =>
      if (x <? y)%N then true
      else if (y <? x)%N then false
      else str_le a' b'
  end.

(** [sorted(l)] for a list of [str].  The order is total and two names that
    compare equal are the same name, so every sorting algorithm returns the
    list that insertion from the right builds. *)
Fixpoint insert_sorted (x : str) (l : list str) : list str :=
  match l with
  | [] => [x]
  | y :: l' => if str_le x y then x :: y :: l' else y :: insert_sorted x l'
  end.

Definition sorted (l : list str) : list str :=
  foldr insert_sorted [] l.

(** Values a configuration entry can hold: what [json.load] returns and what
    the application stores. *)
#[local] Unset Elimination Schemes.
Inductive value : Type :=
| VNone
| VBool (b : bool)
| VInt (n : Z)
| VFloat (q : Q)
| VStr (s : str)
| VList (l : list value)
| VDict (d : list (str * value)).
#[local] Set Elimination Schemes.

(** Truth value of an object in a condition. *)
Definition truthy (v : value) : bool :=
  match v with
  | VNone => false
  | VBool b => b
  | VInt n => negb (n =? 0)
  | VFloat q => negb (Qeq_bool q 0)
  | VStr s => negb (bool_decide (s = []))
  | VList l => match l with [] => false | _ => true end
  | VDict d => match d with [] => false | _ => true end
  end.

(** *** Facts about [sorted] *)

Lemma insert_sorted_length (x : str) (l : list str) :
  length (insert_sorted x l) = S (length l).
Proof.
  induction l as [|y l IH]; [done|].
  simpl. destruct (str_le x y); simpl; by rewrite ?IH.
Qed.

Lemma sorted_length (l : list str) : length (sorted l) = length l.
Proof.
  induction l as [|x l IH]; [done|].
  simpl. by rewrite insert_sorted_length, IH.
Qed.

Lemma str_le_total (a b : str) : str_le a b = false -> str_le b a = true.
Proof.
  revert b. induction a as [|x a IH]; intros [|y b]; simpl; try done.
  destruct (N.ltb_spec x y), (N.ltb_spec y x); try done; try lia.
  apply IH.
Qed.

Lemma insert_sorted_Sorted (x : str) (l : list str) :
  Sorted (fun a b => str_le a b = true) l ->
  Sorted (fun a b => str_le a b = true) (insert_sorted x l).
Proof.
  induction 1 as [|y l Hs IH Hhd]; simpl.
  - by repeat constructor.
  - destruct (str_le x y) eqn:Hxy.
    + constructor; [by constructor | by constructor].
    + constructor; [done|].
      destruct Hhd as [|z l Hyz]; simpl.
      * constructor. by apply str_le_total.
      * destruct (str_le x z); constructor; [by apply str_le_total | done].
Qed.

Lemma sorted_Sorted (l : list str) :
  Sorted (fun a b => str_le a b = true) (sorted l).
Proof.
  induction l as [|x l IH]; [constructor|].
  simpl. by apply insert_sorted_Sorted.
Qed.

End Py.

(** ** The camera thread and its frame queue *)

Module CameraThread.
Import Py.

(** A frame as [cv2] hands it over: an array of [rows] x [cols] pixels with
    three channel bytes each, row by row. *)
Record Frame : Type := mkFrame {
  rows : Z;
  cols : Z;
  data : list Z
}.

(** [cv2.cvtColor(frame, cv2.COLOR_BGR2RGB)]: the first and third channel of
    every pixel change places. *)
Fixpoint swap_channels (d : list Z) : list Z :=
  match d with
  | b :: g :: r :: rest => r :: g :: b :: swap_channels rest
  | _ => d
  end.

Definition cvtColor_BGR2RGB (f : Frame) : Frame :=
  {| rows := rows f; cols := cols f; data := swap_channels (data f) |}.

(** [queue.Queue(maxsize)]: first in, first out; [maxsize <= 0] means no
    bound. *)
Record Queue : Type := mkQueue {
  maxsize : Z;
  items : list Frame
}.

Definition qsize (q : Queue) : nat := length (items q).

Definition empty (q : Queue) : bool :=
  match items q with
  | [] => true
  | _ :: _ => false
  end.

Definition full (q : Queue) : bool :=
  (0 <? maxsize q) && (maxsize q <=? Z.of_nat (qsize q)).

(** [q.put_nowait(x)]: raises [queue.Full] instead of waiting for room. *)
Definition put_nowait (q : Queue) (x : Frame) : result Queue :=
  if full q then Raise QueueFull
  else Ok {| maxsize := maxsize q; items := items q ++ [x] |}.

(** [q.get_nowait()]: raises [queue.Empty] instead of waiting for an item. *)
Definition get_nowait (q : Queue) : result (Frame * Queue) :=
  match items q with
  | [] => Raise QueueEmpty
  | x :: rest => Ok (x, {| maxsize := maxsize q; items := rest |})
  end.

(** [CameraThread.__init__]: [self.frame_queue = queue.Queue(maxsize=2)] *)
Definition frame_queue_init : Queue := {| maxsize := 2; items := [] |}.

(** The [try: put_nowait ... except queue.Full: pass] of [run]. *)
Definition put_or_drop (q : Queue) (frame_rgb : Frame) : Queue :=
  match put_nowait q frame_rgb with
  | Ok q' => q'
  | Raise _ => q
  end.

(** One turn of the loop of [run].  [read] is what [self.camera.read()]
    returned; the [time.sleep(0.01)] after a failed read changes nothing. *)
Definition run_iter (q : Queue) (read : bool * Frame) : Queue :=
  let '(ret, frame) := read in
  if ret then put_or_drop q (cvtColor_BGR2RGB frame) else q.

(** The loop of [run] over the reads the camera answers until [stop]. *)
Definition run_loop (q : Queue) (reads : list (bool * Frame)) : Queue :=
  fold_left run_iter reads q.

(** The frames a list of reads produces, in order. *)
Definition produced (reads : list (bool * Frame)) : list Frame :=
  List.map (fun r => cvtColor_BGR2RGB (snd r)) (List.filter fst reads).

(** The loop of [get_frame]; [None] when the fuel does not reach its end. *)
Fixpoint get_frame_loop (fuel : nat) (q : Queue) (frame : option Frame)
  : option (option Frame * Queue) :=
  match fuel with
  | O => None
  | S fuel' =>
      if empty q then Some (frame, q)
      else
        match get_nowait q with
        | Ok (x, q') => get_frame_loop fuel' q' (Some x)
        | Raise _ => Some (None, q)
        end
  end.

(** [CameraThread.get_frame]: every turn of the loop takes one item, so one
    turn more than the queue holds items ends it. *)
Definition get_frame (q : Queue) : option (option Frame * Queue) :=
  get_frame_loop (S (qsize q)) q None.

(** *** The two threads on the shared queue

    The worker runs [run]; the presentation loop calls [get_frame] from
    [update_frame].  Each call on the queue is atomic (the queue holds its own
    lock), so a run of the program is an interleaving of the worker's
    attempts to put and of the single queue calls of [get_frame]. *)

(** Where the presentation thread stands inside [get_frame]. *)
Inductive consumer : Type :=
| Outside
| Testing (frame : option Frame)
| Taking (frame : option Frame).

Record shared : Type := mkShared {
  chan : Queue;
  cons : consumer
}.

Inductive step : shared -> shared -> Prop :=
| step_worker q c read :
    step (mkShared q c) (mkShared (run_iter q read) c)
| step_call q :
    step (mkShared q Outside) (mkShared q (Testing None))
| step_return q frame :
    empty q = true ->
    step (mkShared q (Testing frame)) (mkShared q Outside)
| step_enter_body q frame :
    empty q = false ->
    step (mkShared q (Testing frame)) (mkShared q (Taking frame))
| step_take q frame x q' :
    get_nowait q = Ok (x, q') ->
    step (mkShared q (Taking frame)) (mkShared q' (Testing (Some x)))
| step_take_raises q frame e :
    get_nowait q = Raise e ->
    step (mkShared q (Taking frame)) (mkShared q Outside).

Definition start : shared := mkShared frame_queue_init Outside.

Inductive reachable : shared -> Prop :=
| reach_start : reachable start
| reach_step s s' : reachable s -> step s s' -> reachable s'.

(** A camera that answers three reads in a row, each with a frame of one
    pixel of its own colour. *)
Definition pixel_frame (b g r : Z) : Frame :=
  {| rows := 1; cols := 1; data := [b; g; r] |}.

Definition burst_of_three : list (bool * Frame) :=
  [(true, pixel_frame 10 20 30);
   (true, pixel_frame 40 50 60);
   (true, pixel_frame 70 80 90)].

(** What holds of the queue in every reachable state. *)
Definition bounded (q : Queue) : Prop :=
  maxsize q = 2 /\ (qsize q <= 2)%nat.

(** *** Properties *)

Lemma full_iff (q : Queue) :
  maxsize q = 2 -> full q = true <-> (2 <= qsize q)%nat.
Proof.
  intros Hm. unfold full. rewrite Hm. simpl.
  rewrite Z.leb_le. lia.
Qed.

Lemma put_or_drop_items (q : Queue) (x : Frame) :
  bounded q ->
  items (put_or_drop q x) = take 2 (items q ++ [x]).
Proof.
  intros [Hm Hlen]. unfold put_or_drop, put_nowait.
  destruct (full q) eqn:Hfull.
  - apply full_iff in Hfull; [|done]. unfold qsize in *.
    rewrite take_app_le by lia. rewrite take_ge by lia. done.
  - assert (qsize q < 2)%nat as Hlt.
    { destruct (decide (2 <= qsize q)%nat) as [Hge|]; [|lia].
      apply full_iff in Hge; [congruence | done]. }
    simpl. unfold qsize in Hlt. rewrite take_ge; [done|].
    rewrite length_app. simpl. lia.
Qed.

Lemma put_or_drop_bounded (q : Queue) (x : Frame) :
  bounded q -> bounded (put_or_drop q x).
Proof.
  intros Hb. split.
  - unfold put_or_drop, put_nowait. destruct (full q); [apply Hb|]. simpl. apply Hb.
  - unfold qsize. rewrite put_or_drop_items by done. rewrite length_take. lia.
Qed.

Lemma run_iter_bounded (q : Queue) (read : bool * Frame) :
  bounded q -> bounded (run_iter q read).
Proof.
  intros Hb. destruct read as [[] frame]; simpl; [|done].
  by apply put_or_drop_bounded.
Qed.

Lemma run_loop_bounded (reads : list (bool * Frame)) (q : Queue) :
  bounded q -> bounded (run_loop q reads).
Proof.
  revert q. induction reads as [|r reads IH]; intros q Hb; [done|].
  simpl. apply IH. by apply run_iter_bounded.
Qed.

Lemma run_loop_maxsize (reads : list (bool * Frame)) (q : Queue) :
  bounded q -> maxsize (run_loop q reads) = 2.
Proof. intros Hb. by destruct (run_loop_bounded reads q Hb). Qed.

(** The queue keeps the oldest frames: what was in it, then what was produced,
    cut at two. *)
Lemma run_loop_items (reads : list (bool * Frame)) (q : Queue) :
  bounded q ->
  items (run_loop q reads) = take 2 (items q ++ produced reads).
Proof.
  revert q. induction reads as [|[ret frame] reads IH]; intros q Hb.
  - simpl. unfold produced. simpl. rewrite app_nil_r.
    destruct Hb as [_ Hlen]. unfold qsize in Hlen. by rewrite take_ge by lia.
  - simpl. destruct ret.
    + rewrite IH by (by apply put_or_drop_bounded).
      rewrite put_or_drop_items by done.
      unfold produced. simpl. fold (produced reads).
      replace (items q ++ cvtColor_BGR2RGB frame :: produced reads)
        with ((items q ++ [cvtColor_BGR2RGB frame]) ++ produced reads)
        by (by rewrite <- app_assoc).
      generalize (items q ++ [cvtColor_BGR2RGB frame]) (produced reads).
      intros l1 l2. by destruct l1 as [|a [|b l1]].
    + rewrite IH by done. done.
Qed.

(** [get_frame] runs to its end, hands out the last item of the queue (or
    what it already held) and leaves the queue empty. *)
Lemma get_frame_loop_drains (fuel : nat) (q : Queue) (frame : option Frame) :
  (qsize q < fuel)%nat ->
  get_frame_loop fuel q frame =
    Some (from_option Some frame (last (items q)),
          {| maxsize := maxsize q; items := [] |}).
Proof.
  revert q frame. induction fuel as [|fuel IH]; intros [m l] frame Hlt; [lia|].
  destruct l as [|x l]; [done|].
  unfold qsize in Hlt. simpl in *.
  change (get_frame_loop fuel {| maxsize := m; items := l |} (Some x) =
          Some (from_option Some frame (last (x :: l)),
                {| maxsize := m; items := [] |})).
  rewrite IH by (unfold qsize; simpl; lia). simpl.
  rewrite last_cons. by destruct (last l).
Qed.

Lemma get_frame_drains (q : Queue) :
  get_frame q =
    Some (last (items q), {| maxsize := maxsize q; items := [] |}).
Proof.
  unfold get_frame. rewrite get_frame_loop_drains by lia.
  by destruct (last (items q)).
Qed.

Lemma get_frame_after_run (q : Queue) (reads : list (bool * Frame)) :
  bounded q ->
  get_frame (run_loop q reads) =
    Some (last (take 2 (items q ++ produced reads)),
          {| maxsize := 2; items := [] |}).
Proof.
  intros Hb. rewrite get_frame_drains.
  by rewrite run_loop_items, run_loop_maxsize.
Qed.

Lemma frame_queue_init_bounded : bounded frame_queue_init.
Proof. split; [done | unfold qsize; simpl; lia]. Qed.

(** C1, as stated, fails: three frames are produced without a call of
    [get_frame] in between (three is more than the queue holds); the call that
    follows returns the second frame, and the third, the most recent one, was
    dropped when it was produced. *)
Lemma get_frame_misses_newest :
  (2 < length (produced burst_of_three))%nat /\
  last (produced burst_of_three) = Some (pixel_frame 90 80 70) /\
  get_frame (run_loop frame_queue_init burst_of_three) =
    Some (Some (pixel_frame 60 50 40), frame_queue_init) /\
  pixel_frame 60 50 40 <> pixel_frame 90 80 70.
Proof.
  split; [vm_compute; lia|]. split; [reflexivity|].
  split; [reflexivity | discriminate].
Qed.

(** C1, amended: when more than two frames are produced into the fresh queue
    without a call of [get_frame] in between, the queue holds the first two
    of them, and the call returns the second frame produced -- the newest
    frame the queue took in, never the older one -- and leaves the queue
    empty; on an empty queue the call returns [None]. *)
Theorem get_frame_newest_queued (reads : list (bool * Frame)) (m : Z) :
  (2 < length (produced reads))%nat ->
  items (run_loop frame_queue_init reads) = take 2 (produced reads) /\
  get_frame (run_loop frame_queue_init reads) =
    Some (produced reads !! 1%nat, frame_queue_init) /\
  is_Some (produced reads !! 1%nat) /\
  get_frame (mkQueue m []) = Some (None, mkQueue m []).
Proof.
  intros Hn. pose proof frame_queue_init_bounded as Hb.
  rewrite run_loop_items, get_frame_after_run by done. simpl.
  destruct (produced reads) as [|a [|b l]]; simpl in *; try lia.
  repeat split; eauto.
Qed.

Lemma get_frame_newest_queued_witness :
  (2 < length (produced burst_of_three))%nat /\
  get_frame (run_loop frame_queue_init burst_of_three) =
    Some (produced burst_of_three !! 1%nat, frame_queue_init).
Proof.
  assert (2 < length (produced burst_of_three))%nat as H by (vm_compute; lia).
  split; [exact H|].
  exact (proj1 (proj2 (get_frame_newest_queued burst_of_three 2 H))).
Defined.

Lemma reachable_bounded (s : shared) : reachable s -> bounded (chan s).
Proof.
  induction 1 as [|s s' _ IH Hstep]; [apply frame_queue_init_bounded|].
  inversion Hstep as [q c read|q|q frame He|q frame He|q frame x q' Hget|q frame e Hget];
    subst; simpl in *; try done.
  - by apply run_iter_bounded.
  - unfold get_nowait in Hget. destruct IH as [Hm Hlen].
    destruct (items q) as [|y rest] eqn:Hi; [done|].
    injection Hget as _ <-. split; [done|].
    unfold qsize in *. rewrite Hi in Hlen. simpl in *. lia.
Qed.

(** C5: in every state that an interleaving of the worker's puts and of the
    queue calls of [get_frame] reaches, the queue holds at most two frames;
    the worker's turn can always be taken (it never waits for room); and when
    the queue holds two frames, [put_nowait] raises [queue.Full], which the
    worker passes over, so the turn leaves the queue as it was and the new
    frame is dropped. *)
Theorem frame_queue_overload (s : shared) :
  reachable s ->
  (qsize (chan s) <= 2)%nat /\
  (forall read, step s (mkShared (run_iter (chan s) read) (cons s))) /\
  (forall frame,
     qsize (chan s) = 2%nat ->
     put_nowait (chan s) (cvtColor_BGR2RGB frame) = Raise QueueFull /\
     run_iter (chan s) (true, frame) = chan s).
Proof.
  intros Hr. destruct (reachable_bounded s Hr) as [Hm Hlen].
  split; [done|]. split.
  - intros read. destruct s as [q c]. apply step_worker.
  - intros frame Hfull.
    assert (full (chan s) = true) as Hf by (apply full_iff; [done | lia]).
    unfold run_iter, put_or_drop, put_nowait. by rewrite Hf.
Qed.

Lemma frame_queue_overload_witness :
  reachable (mkShared (run_loop frame_queue_init burst_of_three) Outside) /\
  (qsize (run_loop frame_queue_init burst_of_three) <= 2)%nat.
Proof.
  assert (reachable (mkShared (run_loop frame_queue_init burst_of_three) Outside))
    as H.
  { eapply reach_step; [eapply reach_step; [eapply reach_step; [apply reach_start|] |] |];
      apply step_worker. }
  split; [exact H|].
  exact (proj1 (frame_queue_overload _ H)).
Defined.

End CameraThread.

(** ** The main loop's timeout sources *)

Module GLib.

(** A pending timeout: its source id and the time (ms) it is due.  The one
    callback the configuration store registers is [Config._do_save]. *)
Record loop : Type := mkLoop {
  now : N;
  next_id : positive;
  sources : list (positive * N)
}.

Definition fresh : loop := {| now := 0; next_id := 1; sources := [] |}.

(** [GLib.timeout_add(interval, callback)]: a new source, due [interval] ms
    from now; returns its id. *)
Definition timeout_add (interval : N) (l : loop) : positive * loop :=
  (next_id l,
   {| now := now l;
      next_id := Pos.succ (next_id l);
      sources := sources l ++ [(next_id l, (now l + interval)%N)] |}).

(** [GLib.source_remove(id)] *)
Definition source_remove (id : positive) (l : loop) : loop :=
  {| now := now l;
     next_id := next_id l;
     sources := List.filter (fun s => negb (Pos.eqb (fst s) id)) (sources l) |}.

Definition set_now (t : N) (l : loop) : loop :=
  {| now := t; next_id := next_id l; sources := sources l |}.

End GLib.

(** ** The configuration store *)

Module Config.
Import Py.

(** What [CONFIG_FILE] is when it is read: not there, not readable as JSON
    (or not readable at all), or a JSON object. *)
Inductive file : Type :=
| Missing
| Unreadable (e : exn)
| Document (loaded : gmap str value).

Record Config : Type := mkConfig {
  data : gmap str value;
  _save_pending : bool;
  _save_timer : option positive
}.

(** The dictionary [__init__] starts from; [default_photos] is the pictures
    directory of the platform. *)
Definition defaults (default_photos : str) : gmap str value :=
  list_to_map
    [(lit "photos_directory", VStr default_photos);
     (lit "guide_enabled", VBool true);
     (lit "guide_x", VFloat (1 # 2));
     (lit "guide_y", VFloat (1 # 2));
     (lit "guide_width", VFloat (3 # 10));
     (lit "guide_height", VFloat (2 # 5))].

(** [Config.load]: the new dictionary and, when the read raised, the
    exception that was caught and printed. *)
Definition load (f : file) (d : gmap str value)
  : gmap str value * option exn :=
  match f with
  | Missing => (d, None)
  | Unreadable e => (d, Some e)
  | Document loaded => (loaded ∪ d, None)
  end.

(** [Config.__init__] *)
Definition init (default_photos : str) (f : file) : Config :=
  {| data := fst (load f (defaults default_photos));
     _save_pending := false;
     _save_timer := None |}.

(** [Config.get] *)
Definition get (c : Config) (key : str) : value :=
  default VNone (data c !! key).

(** The store together with what it acts on: the main loop, the file, and
    whether the file can be opened for writing.  [writes] records every
    completed [json.dump] with the time it happened. *)
Record world : Type := mkWorld {
  cfg : Config;
  main_loop : GLib.loop;
  disk : file;
  writable : bool;
  writes : list (N * gmap str value)
}.

(** [Config._do_save], called by the main loop when the timeout is due. *)
Definition _do_save (w : world) : world :=
  if writable w then
    {| cfg := {| data := data (cfg w);
                 _save_pending := false;
                 _save_timer := None |};
       main_loop := main_loop w;
       disk := Document (data (cfg w));
       writable := writable w;
       writes := writes w ++ [(GLib.now (main_loop w), data (cfg w))] |}
  else w.

(** [Config.save] *)
Definition save (w : world) : world :=
  if negb (_save_pending (cfg w)) then
    let l1 :=
      match _save_timer (cfg w) with
      | Some id => GLib.source_remove id (main_loop w)
      | None => main_loop w
      end in
    let '(id, l2) := GLib.timeout_add 500 l1 in
    {| cfg := {| data := data (cfg w);
                 _save_pending := true;
                 _save_timer := Some id |};
       main_loop := l2;
       disk := disk w;
       writable := writable w;
       writes := writes w |}
  else w.

(** [Config.set] *)
Definition set (key : str) (v : value) (w : world) : world :=
  save {| cfg := {| data := <[key := v]> (data (cfg w));
                    _save_pending := _save_pending (cfg w);
                    _save_timer := _save_timer (cfg w) |};
          main_loop := main_loop w;
          disk := disk w;
          writable := writable w;
          writes := writes w |}.

(** The main loop dispatches a due source: the clock stands at the due time,
    the callback runs and, as [_do_save] returns [False], the source is
    removed. *)
Definition dispatch (w : world) (s : positive * N) : world :=
  let w1 := {| cfg := cfg w;
               main_loop := GLib.source_remove (fst s)
                              (GLib.set_now (snd s) (main_loop w));
               disk := disk w;
               writable := writable w;
               writes := writes w |} in
  _do_save w1.

(** [ms] milliseconds pass in the main loop: the sources due by then are
    dispatched in the order they were added, and the clock moves on. *)
Definition elapse (ms : N) (w : world) : world :=
  let target := (GLib.now (main_loop w) + ms)%N in
  let due := List.filter (fun s => (snd s <=? target)%N)
               (GLib.sources (main_loop w)) in
  let w1 := fold_left dispatch due w in
  {| cfg := cfg w1;
     main_loop := GLib.set_now target (main_loop w1);
     disk := disk w1;
     writable := writable w1;
     writes := writes w1 |}.

Inductive event : Type :=
| Set_ (key : str) (v : value)
| Elapse (ms : N).

Definition handle (w : world) (e : event) : world :=
  match e with
  | Set_ key v => set key v w
  | Elapse ms => elapse ms w
  end.

Definition run (events : list event) (w : world) : world :=
  fold_left handle events w.

(** The application after start-up: no file yet, nothing pending. *)
Definition boot (default_photos : str) (f : file) : world :=
  {| cfg := init default_photos f;
     main_loop := GLib.fresh;
     disk := f;
     writable := true;
     writes := [] |}.

(** *** Sample runs *)

Definition home_pictures : str := lit "/home/user/Pictures/DailyPortraits".

(** A configuration file with one entry the application does not know. *)
Definition themed_document : gmap str value :=
  {[ lit "theme" := VStr (lit "dark") ]}.

(** A guide that is dragged: [guide_x] is set every 400 ms, three times. *)
Definition drag : list event :=
  [Set_ (lit "guide_x") (VFloat (1 # 10)); Elapse 400;
   Set_ (lit "guide_x") (VFloat (2 # 10)); Elapse 400;
   Set_ (lit "guide_x") (VFloat (3 # 10))].

(** *** Properties *)

(** C9, as stated, fails: a key of the document that is not among the
    defaults is not passed over; after start-up the dictionary holds it, so
    its keys are not the keys of the defaults. *)
Lemma load_keeps_unknown_key :
  defaults home_pictures !! lit "theme" = None /\
  data (init home_pictures (Document themed_document)) !! lit "theme"
    = Some (VStr (lit "dark")) /\
  dom (data (init home_pictures (Document themed_document)))
    <> dom (defaults home_pictures).
Proof.
  split; [by vm_compute|]. split; [by vm_compute|].
  intros Heq.
  assert (lit "theme" ∈ dom (defaults home_pictures)) as Hin.
  { rewrite <- Heq. apply elem_of_dom. eexists. by vm_compute. }
  apply elem_of_dom in Hin as [v Hv]. by vm_compute in Hv.
Qed.

(** C9, amended: start-up lays every entry of the document over the
    defaults, also an entry whose key the defaults do not have; afterwards a
    key has the document's value when the document has it and the default
    otherwise, and the keys are those of the defaults together with those of
    the document.  With no file, or a file that cannot be read, nothing is
    raised and the defaults stand; the exception of the failed read is
    reported. *)
Theorem load_overlays_document (default_photos : str) :
  (forall loaded key,
     data (init default_photos (Document loaded)) !! key =
       match loaded !! key with
       | Some v => Some v
       | None => defaults default_photos !! key
       end) /\
  (forall loaded,
     dom (data (init default_photos (Document loaded))) =
       dom loaded ∪ dom (defaults default_photos)) /\
  data (init default_photos Missing) = defaults default_photos /\
  (forall e,
     data (init default_photos (Unreadable e)) = defaults default_photos /\
     snd (load (Unreadable e) (defaults default_photos)) = Some e).
Proof.
  repeat split.
  - intros loaded key. unfold init, load. simpl.
    rewrite lookup_union. by destruct (loaded !! key), (defaults _ !! key).
  - intros loaded. unfold init, load. simpl. apply dom_union_L.
Qed.

(** While a save is pending, [save] does nothing: the timeout that is
    already registered keeps its due time. *)
Lemma save_while_pending (w : world) :
  _save_pending (cfg w) = true -> save w = w.
Proof. intros H. unfold save. by rewrite H. Qed.

Lemma set_while_pending (key : str) (v : value) (w : world) :
  _save_pending (cfg w) = true ->
  main_loop (set key v w) = main_loop w /\ writes (set key v w) = writes w.
Proof. intros H. unfold set. by rewrite save_while_pending. Qed.

(** C2 does not hold of the code.  The three calls of [set] are 400 ms apart,
    less than the delay of 500 ms, yet the file is written once in between:
    the timeout of the first call is not set back by the second, it is
    dispatched 500 ms after the first call and writes what the dictionary
    holds then.  The third call finds nothing pending and registers a new
    timeout. *)
Lemma timeout_not_restarted :
  writes (run drag (boot home_pictures Missing)) =
    [(500%N, <[lit "guide_x" := VFloat (2 # 10)]> (defaults home_pictures))] /\
  GLib.now (main_loop (run drag (boot home_pictures Missing))) = 800%N /\
  GLib.sources (main_loop (run drag (boot home_pictures Missing))) =
    [(2%positive, 1300%N)].
Proof. by vm_compute. Qed.

End Config.

(** ** The camera view: the frame on display and its scaled copy *)

Module CameraView.
Import Py CameraThread.

(** A [GdkPixbuf.Pixbuf]: 8-bit RGB without alpha. *)
Record Pixbuf : Type := mkPixbuf {
  pb_data : list Z;
  pb_width : Z;
  pb_height : Z;
  pb_rowstride : Z
}.

(** [GdkPixbuf.Pixbuf.new_from_data(data, RGB, False, 8, w, h, rowstride)] *)
Definition new_from_data (d : list Z) (w h rowstride : Z) : Pixbuf :=
  {| pb_data := d; pb_width := w; pb_height := h; pb_rowstride := rowstride |}.

(** What [on_draw] hands to cairo: the source pixbuf and where it is put. *)
Inductive cairo_op : Type :=
| Paint (source : Pixbuf) (x_offset y_offset : Z).

Record CameraView : Type := mkCameraView {
  camera_thread : option (bool * Queue);
  captured_frame : option Frame;
  preview_mode : bool;
  current_frame : option Frame;
  cached_pixbuf : option Pixbuf;
  last_frame_size : option (Z * Z * Z * Z);
  capture_button : bool;
  save_button : bool;
  discard_button : bool;
  guide_toggle : bool;
  dragging : bool
}.

(** [CameraView.__init__], as far as the fields above go. *)
Definition init : CameraView :=
  {| camera_thread := None;
     captured_frame := None;
     preview_mode := false;
     current_frame := None;
     cached_pixbuf := None;
     last_frame_size := None;
     capture_button := true;
     save_button := false;
     discard_button := false;
     guide_toggle := true;
     dragging := false |}.

(** [a / b] on two [int]: a [float], or [ZeroDivisionError]. *)
Definition truediv (a b : Z) : result Q :=
  if b =? 0 then Raise ZeroDivisionError
  else Ok (inject_Z a / inject_Z b)%Q.

(** [min(a, b)] *)
Definition fmin (a b : Q) : Q := if Qle_bool a b then a else b.

(** [int(x)] on a [float]: towards zero. *)
Definition int_of_float (x : Q) : Z := Z.quot (Qnum x) (Z.pos (Qden x)).

(** The size the frame is drawn at and its place in the widget:
    [(new_w, new_h, x_offset, y_offset)]. *)
Definition fit (w h width height : Z) : result (Z * Z * Z * Z) :=
  bind (truediv width w) (fun sx =>
  bind (truediv height h) (fun sy =>
  let scale := fmin sx sy in
  let new_w := int_of_float (inject_Z w * scale) in
  let new_h := int_of_float (inject_Z h * scale) in
  Ok (new_w, new_h, (width - new_w) / 2, (height - new_h) / 2))).

(** [start_camera]: a thread that runs, with its fresh queue. *)
Definition start_camera (v : CameraView) : CameraView :=
  match camera_thread v with
  | Some _ => v
  | None =>
      {| camera_thread := Some (true, frame_queue_init);
         captured_frame := captured_frame v;
         preview_mode := preview_mode v;
         current_frame := current_frame v;
         cached_pixbuf := cached_pixbuf v;
         last_frame_size := last_frame_size v;
         capture_button := capture_button v;
         save_button := save_button v;
         discard_button := discard_button v;
         guide_toggle := guide_toggle v;
         dragging := dragging v |}
  end.

(** The worker's turns between two ticks of the view. *)
Definition worker_runs (reads : list (bool * Frame)) (v : CameraView)
  : CameraView :=
  {| camera_thread :=
       match camera_thread v with
       | Some (running, q) => Some (running, run_loop q reads)
       | None => None
       end;
     captured_frame := captured_frame v;
     preview_mode := preview_mode v;
     current_frame := current_frame v;
     cached_pixbuf := cached_pixbuf v;
     last_frame_size := last_frame_size v;
     capture_button := capture_button v;
     save_button := save_button v;
     discard_button := discard_button v;
     guide_toggle := guide_toggle v;
     dragging := dragging v |}.

(** [CameraView.update_frame]: the view, whether a redraw was queued, and
    what the timeout callback returns. *)
Definition update_frame (v : CameraView) : CameraView * bool * bool :=
  match camera_thread v with
  | Some (true, q) =>
      if negb (preview_mode v) then
        let '(frame, q') := default (None, q) (get_frame q) in
        ({| camera_thread := Some (true, q');
            captured_frame := captured_frame v;
            preview_mode := preview_mode v;
            current_frame :=
              match frame with
              | Some f => Some f
              | None => current_frame v
              end;
            cached_pixbuf := cached_pixbuf v;
            last_frame_size := last_frame_size v;
            capture_button := capture_button v;
            save_button := save_button v;
            discard_button := discard_button v;
            guide_toggle := guide_toggle v;
            dragging := dragging v |},
         match frame with Some _ => true | None => false end,
         true)
      else (v, false, true)
  | Some (false, _) => (v, false, false)
  | None => (v, false, false)
  end.

(** [CameraView.on_capture] *)
Definition on_capture (v : CameraView) : CameraView :=
  match current_frame v with
  | Some f =>
      {| camera_thread := camera_thread v;
         captured_frame := Some f;
         preview_mode := true;
         current_frame := current_frame v;
         cached_pixbuf := None;
         last_frame_size := last_frame_size v;
         capture_button := false;
         save_button := true;
         discard_button := true;
         guide_toggle := false;
         dragging := dragging v |}
  | None => v
  end.

(** [CameraView.reset_capture] *)
Definition reset_capture (v : CameraView) : CameraView :=
  {| camera_thread := camera_thread v;
     captured_frame := None;
     preview_mode := false;
     current_frame := current_frame v;
     cached_pixbuf := None;
     last_frame_size := last_frame_size v;
     capture_button := true;
     save_button := false;
     discard_button := false;
     guide_toggle := true;
     dragging := dragging v |}.

Section Drawing.

(** [pixbuf.scale_simple(new_w, new_h, BILINEAR)] of the toolkit; [None] when
    it returns no pixbuf. *)
Variable scale_simple : Pixbuf -> Z -> Z -> option Pixbuf.

Definition set_cache (v : CameraView) (pb : option Pixbuf)
  (size : Z * Z * Z * Z) : CameraView :=
  {| camera_thread := camera_thread v;
     captured_frame := captured_frame v;
     preview_mode := preview_mode v;
     current_frame := current_frame v;
     cached_pixbuf := pb;
     last_frame_size := Some size;
     capture_button := capture_button v;
     save_button := save_button v;
     discard_button := discard_button v;
     guide_toggle := guide_toggle v;
     dragging := dragging v |}.

(** The pixbuf of a frame at the size it is drawn at. *)
Definition scaled (f : Frame) (new_w new_h : Z) : option Pixbuf :=
  scale_simple
    (new_from_data (data f) (cols f) (rows f) (cols f * 3)) new_w new_h.

(** [Gdk.cairo_set_source_pixbuf(cr, pixbuf, x, y); cr.paint()] *)
Definition paint (pb : option Pixbuf) (x y : Z) : result (list cairo_op) :=
  match pb with
  | Some p => Ok [Paint p x y]
  | None => Raise TypeError
  end.

(** [CameraView.on_draw] for a widget allocated [width] x [height]: the frame
    part.  The face guide is stroked afterwards from the configuration alone
    and reads nothing of the fields below. *)
Definition on_draw (width height : Z) (v : CameraView)
  : CameraView * result (list cairo_op) :=
  let frame_to_draw :=
    if preview_mode v then captured_frame v else current_frame v in
  match frame_to_draw with
  | None => (v, Ok [])
  | Some f =>
      let h := rows f in
      let w := cols f in
      match fit w h width height with
      | Raise e => (v, Raise e)
      | Ok (new_w, new_h, x_offset, y_offset) =>
          let frame_size := (w, h, new_w, new_h) in
          let v' :=
            if negb (bool_decide (last_frame_size v = Some frame_size))
               || negb (bool_decide (is_Some (cached_pixbuf v)))
            then set_cache v (scaled f new_w new_h) frame_size
            else v in
          (v', paint (cached_pixbuf v') x_offset y_offset)
      end
  end.

(** The drawing without the cache: the frame is scaled anew every time. *)
Definition on_draw_uncached (width height : Z) (v : CameraView)
  : result (list cairo_op) :=
  let frame_to_draw :=
    if preview_mode v then captured_frame v else current_frame v in
  match frame_to_draw with
  | None => Ok []
  | Some f =>
      match fit (cols f) (rows f) width height with
      | Raise e => Raise e
      | Ok (new_w, new_h, x_offset, y_offset) =>
          paint (scaled f new_w new_h) x_offset y_offset
      end
  end.

(** A tick of the view after the worker produced [reads], then a redraw. *)
Definition tick_and_draw (width height : Z) (reads : list (bool * Frame))
  (v : CameraView) : CameraView * result (list cairo_op) :=
  on_draw width height (fst (fst (update_frame (worker_runs reads v)))).

End Drawing.

(** A scaler that answers the calls that ask for the size the source has:
    the toolkit returns a copy of the source then. *)
Definition copy_at_same_size (pb : Pixbuf) (new_w new_h : Z) : option Pixbuf :=
  if (new_w =? pb_width pb) && (new_h =? pb_height pb) then Some pb else None.

(** Two frames of four by three pixels as the camera delivers them, one
    black and one white, and the view after the black one was drawn in a
    widget of that size. *)
Definition black : Frame :=
  {| rows := 3; cols := 4; data := repeat 0 36 |}.

Definition white : Frame :=
  {| rows := 3; cols := 4; data := repeat 255 36 |}.

Definition pixbuf_of (f : Frame) : Pixbuf :=
  new_from_data (data f) (cols f) (rows f) (cols f * 3).

Definition after_black : CameraView :=
  fst (tick_and_draw copy_at_same_size 4 3 [(true, black)] (start_camera init)).

Definition white_arrived : CameraView :=
  fst (fst (update_frame (worker_runs [(true, white)] after_black))).

(** *** Properties *)

Section DrawingFacts.

Variable scale_simple : Pixbuf -> Z -> Z -> option Pixbuf.

Lemma update_frame_takes (q : Queue) (v : CameraView) (f : Frame) :
  camera_thread v = Some (true, q) ->
  preview_mode v = false ->
  last (items q) = Some f ->
  current_frame (fst (fst (update_frame v))) = Some f /\
  cached_pixbuf (fst (fst (update_frame v))) = cached_pixbuf v /\
  last_frame_size (fst (fst (update_frame v))) = last_frame_size v /\
  preview_mode (fst (fst (update_frame v))) = false.
Proof.
  intros Ht Hp Hl. unfold update_frame. rewrite Ht, Hp. simpl.
  by rewrite get_frame_drains, Hl.
Qed.

(** Once a frame has been drawn, a frame of the same shape that replaces it
    is not drawn: [on_draw] finds the size unchanged and paints the pixbuf it
    kept. *)
Lemma on_draw_keeps_cache (width height : Z) (v : CameraView) (f : Frame)
  (pb : Pixbuf) (new_w new_h x y : Z) :
  preview_mode v = false ->
  current_frame v = Some f ->
  fit (cols f) (rows f) width height = Ok (new_w, new_h, x, y) ->
  cached_pixbuf v = Some pb ->
  last_frame_size v = Some (cols f, rows f, new_w, new_h) ->
  on_draw scale_simple width height v = (v, Ok [Paint pb x y]).
Proof.
  intros Hp Hc Hfit Hpb Hsize. unfold on_draw.
  rewrite Hp, Hc, Hfit, Hsize, Hpb.
  rewrite bool_decide_eq_true_2 by done.
  rewrite bool_decide_eq_true_2 by eauto.
  simpl. by rewrite Hpb.
Qed.

End DrawingFacts.

(** C3 does not hold of the code.  The white frame follows the black one; it
    is the current frame, and the drawing without a cache paints it.
    [on_draw] paints the black frame again: the size is the one of the
    previous draw, so the kept pixbuf is used, and [update_frame] did not
    clear it as [on_capture] and [reset_capture] do. *)
Lemma stale_frame_painted :
  current_frame white_arrived = Some white /\
  on_draw_uncached copy_at_same_size 4 3 white_arrived
    = Ok [Paint (pixbuf_of white) 0 0] /\
  snd (on_draw copy_at_same_size 4 3 white_arrived)
    = Ok [Paint (pixbuf_of black) 0 0] /\
  pixbuf_of black <> pixbuf_of white.
Proof.
  split; [by vm_compute|]. split; [by vm_compute|]. split; [by vm_compute|].
  discriminate.
Qed.

(** The sibling paths do clear the kept pixbuf. *)
Lemma capture_and_reset_clear_cache (v : CameraView) (f : Frame) :
  current_frame v = Some f ->
  cached_pixbuf (on_capture v) = None /\ cached_pixbuf (reset_capture v) = None.
Proof. intros H. unfold on_capture. by rewrite H. Qed.

End CameraView.

(** ** Paths, files and the decoding of bytes *)

Module Os.
Import Py.

Definition slash : N := 47.

(** [os.path.join(a, b)] (POSIX) *)
Definition join (a b : str) : str :=
  if startswith b [slash] then b
  else match a with
       | [] => b
       | _ :: _ => if endswith a [slash] then a ++ b else a ++ [slash] ++ b
       end.

(** [os.path.basename(p)] (POSIX): what follows the last slash. *)
Fixpoint basename_from (acc p : str) : str :=
  match p with
  | [] => acc
  | c :: p' =>
      if (c =? slash)%N then basename_from [] p' else basename_from (acc ++ [c]) p'
  end.

Definition basename (p : str) : str := basename_from [] p.

(** The directories that exist and the regular files with their text. *)
Record filesystem : Type := mkFs {
  dirs : gset str;
  files : gmap str str
}.

(** The name a path has inside the directory whose path ends in [prefix]. *)
Definition name_in (prefix path : str) : option str :=
  if startswith path prefix then
    let rest := drop (length prefix) path in
    if bool_decide (rest <> []) && negb (existsb (N.eqb slash) rest)
    then Some rest else None
  else None.

(** [os.listdir(d)] for a path [d]; the order is the system's. *)
Definition listdir (fs : filesystem) (d : str) : result (list str) :=
  if bool_decide (d ∈ dirs fs) then
    Ok (omap (name_in (join d []))
          (List.map fst (map_to_list (files fs)) ++ elements (dirs fs)))
  else Raise OSError.

(** [os.listdir(v)] for an object: [None] stands for the current directory,
    an integer for a file descriptor (none of which is a directory here). *)
Definition listdir_value (fs : filesystem) (v : value) : result (list str) :=
  match v with
  | VStr d => listdir fs d
  | VNone => listdir fs (lit ".")
  | VInt _ | VBool _ => Raise OSError
  | VFloat _ | VList _ | VDict _ => Raise TypeError
  end.

(** [os.fspath] as [os.path.join] applies it to its first argument. *)
Definition fspath (v : value) : result str :=
  match v with
  | VStr d => Ok d
  | _ => Raise TypeError
  end.

(** [bytes.decode()]: strict UTF-8.  A byte is a number below 256. *)
Definition between (lo hi b : Z) : bool := (lo <=? b) && (b <=? hi).

Definition code (z : Z) (rest : result str) : result str :=
  bind rest (fun s => Ok (Z.to_N z :: s)).

Fixpoint decode (bs : list Z) : result str :=
  match bs with
  | [] => Ok []
  | b0 :: r0 =>
      if between 0 127 b0 then code b0 (decode r0)
      else if between 194 223 b0 then
        match r0 with
        | b1 :: r1 =>
            if between 128 191 b1
            then code ((b0 - 192) * 64 + (b1 - 128)) (decode r1)
            else Raise UnicodeDecodeError
        | _ => Raise UnicodeDecodeError
        end
      else if between 224 239 b0 then
        match r0 with
        | b1 :: b2 :: r2 =>
            let lo := if b0 =? 224 then 160 else 128 in
            let hi := if b0 =? 237 then 159 else 191 in
            if between lo hi b1 && between 128 191 b2
            then code ((b0 - 224) * 4096 + (b1 - 128) * 64 + (b2 - 128))
                   (decode r2)
            else Raise UnicodeDecodeError
        | _ => Raise UnicodeDecodeError
        end
      else if between 240 244 b0 then
        match r0 with
        | b1 :: b2 :: b3 :: r3 =>
            let lo := if b0 =? 240 then 144 else 128 in
            let hi := if b0 =? 244 then 143 else 191 in
            if between lo hi b1 && between 128 191 b2 && between 128 191 b3
            then code ((b0 - 240) * 262144 + (b1 - 128) * 4096
                       + (b2 - 128) * 64 + (b3 - 128))
                   (decode r3)
            else Raise UnicodeDecodeError
        | _ => Raise UnicodeDecodeError
        end
      else Raise UnicodeDecodeError
  end.

End Os.

(** ** The timelapse view and its encoding job *)

Module TimelapseView.
Import Py Os.

Record TimelapseView : Type := mkView {
  count_label : str;
  duration_adj : Q;
  create_button : bool;
  status_label : str;
  progress : Q
}.

(** What [os.listdir] names count as photos. *)
Definition is_photo (f : str) : bool :=
  endswith_any f [lit ".jpg"; lit ".png"].

(** The arguments of a started thread: [(photos_dir, photos, duration)]. *)
Definition thread_args : Type := (value * list str * Q)%type.

Record world : Type := mkWorld {
  config : gmap str value;
  fs : filesystem;
  view : TimelapseView;
  threads : list thread_args
}.

Definition set_view (w : world) (v : TimelapseView) : world :=
  {| config := config w; fs := fs w; view := v; threads := threads w |}.

(** [TimelapseView.on_create]; the button that was clicked is
    [self.create_button]. *)
Definition on_create (w : world) : result world :=
  let photos_dir := default VNone (config w !! lit "photos_directory") in
  let duration := duration_adj (view w) in
  bind (listdir_value (fs w) photos_dir) (fun names =>
  let photos := sorted (List.filter is_photo names) in
  if (length photos =? 0)%nat then
    Ok (set_view w
          {| count_label := count_label (view w);
             duration_adj := duration_adj (view w);
             create_button := create_button (view w);
             status_label := lit "No photos found!";
             progress := progress (view w) |})
  else
    Ok {| config := config w;
          fs := fs w;
          view := {| count_label := count_label (view w);
                     duration_adj := duration_adj (view w);
                     create_button := false;
                     status_label := lit "Creating timelapse...";
                     progress := 0 |};
          threads := threads w ++ [(photos_dir, photos, duration)] |}).

(** What the thread asks the main loop to call. *)
Inductive callback : Type :=
| on_timelapse_complete_with (output_file : str)
| on_timelapse_error_with (error_msg : str).

(** [TimelapseView.on_timelapse_complete] *)
Definition on_timelapse_complete (output_file : str) (v : TimelapseView)
  : TimelapseView :=
  {| count_label := count_label v;
     duration_adj := duration_adj v;
     create_button := true;
     status_label := lit "Timelapse created: " ++ basename output_file;
     progress := 1 |}.

(** [TimelapseView.on_timelapse_error] *)
Definition on_timelapse_error (error_msg : str) (v : TimelapseView)
  : TimelapseView :=
  {| count_label := count_label v;
     duration_adj := duration_adj v;
     create_button := true;
     status_label := lit "Error: " ++ slice_to 100 error_msg;
     progress := 0 |}.

Definition call (cb : callback) (v : TimelapseView) : TimelapseView :=
  match cb with
  | on_timelapse_complete_with output_file => on_timelapse_complete output_file v
  | on_timelapse_error_with error_msg => on_timelapse_error error_msg v
  end.

(** How the encoder process goes: it cannot be started, or it exits with a
    return code and what it wrote to standard error, having written the
    output file or not. *)
Inductive process : Type :=
| CannotStart (e : exn)
| Exited (returncode : Z) (stderr : list Z) (output : option str).

(** What the job meets outside the program. *)
Record env : Type := mkEnv {
  timestamp : str;
  can_write : bool;
  ffmpeg : process;
  can_remove : bool
}.

(** What the job does to the outside, in order. *)
Inductive effect : Type :=
| Wrote (path text : str)
| Started (cmd : list str) (cwd : str)
| Removed (path : str)
| RemoveFailed (path : str).

Definition newline : str := [10%N].

Section Job.

(** The text of a [float] in an f-string and [str(e)] of an exception are
    the interpreter's. *)
Variable float_str : Q -> str.
Variable exn_text : exn -> str.

(** [photo.replace("'", "'\\''")] *)
Definition escaped (photo : str) : str :=
  replace photo (lit "'") (lit "'\''").

Definition file_line (photo : str) : str :=
  lit "file '" ++ escaped photo ++ lit "'" ++ newline.

Definition duration_line (duration : Q) : str :=
  lit "duration " ++ float_str duration ++ newline.

(** One turn of the loop that writes the list: two calls of [f.write]. *)
Definition write_photo (duration : Q) (written : str) (photo : str) : str :=
  (written ++ file_line photo) ++ duration_line duration.

(** What the [with open(list_file, 'w')] block writes. *)
Definition script_text (duration : Q) (photos : list str) : str :=
  let written := fold_left (write_photo duration) photos [] in
  match last photos with
  | Some p => written ++ file_line p
  | None => written
  end.

Definition ffmpeg_cmd (list_file output_file : str) : list str :=
  [lit "ffmpeg"; lit "-y"; lit "-f"; lit "concat"; lit "-safe"; lit "0";
   lit "-i"; list_file; lit "-vsync"; lit "vfr"; lit "-pix_fmt";
   lit "yuv420p"; lit "-c:v"; lit "libx264"; lit "-preset"; lit "medium";
   output_file].

Definition add_file (f : filesystem) (path text : str) : filesystem :=
  {| dirs := dirs f; files := <[path := text]> (files f) |}.

Definition del_file (f : filesystem) (path : str) : filesystem :=
  {| dirs := dirs f; files := delete path (files f) |}.

(** [os.remove(list_file)] inside its own [try]/[except: pass]. *)
Definition remove_quietly (e : env) (f : filesystem) (path : str)
  : filesystem * effect :=
  if can_remove e && bool_decide (is_Some (files f !! path))
  then (del_file f path, Removed path)
  else (f, RemoveFailed path).

Record outcome : Type := mkOutcome {
  fs_after : filesystem;
  effects : list effect;
  raised_or_called : result callback
}.

(** The body of the [try] of [create_timelapse_thread]. *)
Definition job (e : env) (f : filesystem) (photos_dir : value)
  (photos : list str) (duration : Q) : outcome :=
  if Qeq_bool duration 0 then mkOutcome f [] (Raise ZeroDivisionError)
  else
    match fspath photos_dir with
    | Raise ex => mkOutcome f [] (Raise ex)
    | Ok d =>
        let output_file :=
          join d (lit "timelapse_" ++ timestamp e ++ lit ".mp4") in
        let list_file := join d (lit "filelist.txt") in
        if negb (can_write e && bool_decide (d ∈ dirs f))
        then mkOutcome f [] (Raise OSError)
        else
          let text := script_text duration photos in
          let f1 := add_file f list_file text in
          let cmd := ffmpeg_cmd list_file output_file in
          match ffmpeg e with
          | CannotStart ex =>
              mkOutcome f1 [Wrote list_file text; Started cmd d] (Raise ex)
          | Exited returncode stderr output =>
              let f2 :=
                match output with
                | Some video => add_file f1 output_file video
                | None => f1
                end in
              let '(f3, removal) := remove_quietly e f2 list_file in
              let trace := [Wrote list_file text; Started cmd d; removal] in
              if returncode =? 0
              then mkOutcome f3 trace
                     (Ok (on_timelapse_complete_with output_file))
              else mkOutcome f3 trace
                     (bind (decode stderr) (fun text =>
                        Ok (on_timelapse_error_with text)))
          end
    end.

(** [TimelapseView.create_timelapse_thread]: the [try] and its
    [except Exception as e]; the last component is the call handed to
    [GLib.idle_add]. *)
Definition create_timelapse_thread (e : env) (f : filesystem)
  (photos_dir : value) (photos : list str) (duration : Q)
  : filesystem * list effect * callback :=
  let o := job e f photos_dir photos duration in
  (fs_after o, effects o,
   match raised_or_called o with
   | Ok cb => cb
   | Raise ex => on_timelapse_error_with (exn_text ex)
   end).

(** The entries of the render script in the words of the specification: one
    entry with the duration for each photo, then the last photo once more
    without a duration. *)
Definition spec_entries (duration : Q) (photos : list str)
  : list (str * option Q) :=
  List.map (fun p => (p, Some duration)) photos
  ++ match last photos with
     | Some p => [(p, None)]
     | None => []
     end.

Definition render_entry (entry : str * option Q) : str :=
  file_line (fst entry)
  ++ match snd entry with
     | Some d => duration_line d
     | None => []
     end.

(** The quoting in the words of the specification: character by character,
    a single quote becomes the four characters quote, backslash, quote,
    quote. *)
Definition quote : N := 39.
Definition backslash : N := 92.

Definition spec_escape (photo : str) : str :=
  flat_map (fun c => if (c =? quote)%N
                     then [quote; backslash; quote; quote]
                     else [c]) photo.

End Job.

(** *** The list file as the encoder reads it

    The concat demuxer reads the word after [file] the way ffmpeg reads any
    token: outside quotes a backslash makes the next character literal, a
    single quote opens a stretch that is literal up to the next single
    quote, and white space ends the token.  This reader is the encoder's,
    not the application's; it is here to say what the quoting is for. *)

Inductive reading : Type :=
| Plain
| Quoted
| Escaped.

Definition is_space (c : N) : bool :=
  existsb (N.eqb c) [32; 10; 9; 13]%N.

Fixpoint read_token (m : reading) (s : str) : str :=
  match s with
  | [] => []
  | c :: s' =>
      match m with
      | Escaped => c :: read_token Plain s'
      | Quoted =>
          if (c =? quote)%N then read_token Plain s'
          else c :: read_token Quoted s'
      | Plain =>
          if is_space c then []
          else if (c =? backslash)%N then
            match s' with
            | [] => [c]
            | _ :: _ => read_token Escaped s'
            end
          else if (c =? quote)%N then read_token Quoted s'
          else c :: read_token Plain s'
      end
  end.

(** *** Sample runs *)

(** The float the slider starts at, as the interpreter prints it. *)
Definition two_tenths (q : Q) : str := lit "0.2".

Definition abc : list str := [lit "a.jpg"; lit "b.jpg"; lit "c.jpg"].

Definition photos_home : str := lit "/home/user/Pictures".

(** A view as [__init__] leaves it, with the slider at its start. *)
Definition fresh_view : TimelapseView :=
  {| count_label := lit "Counting photos...";
     duration_adj := 1 # 5;
     create_button := true;
     status_label := [];
     progress := 0 |}.

(** A photos directory with a text file and nothing else. *)
Definition no_photos : world :=
  {| config := {[ lit "photos_directory" := VStr photos_home ]};
     fs := {| dirs := {[ photos_home ]};
              files := {[ join photos_home (lit "notes.txt") := lit "todo" ]} |};
     view := fresh_view;
     threads := [] |}.

(** A photos directory with one photo. *)
Definition one_photo_fs : filesystem :=
  {| dirs := {[ photos_home ]};
     files := {[ join photos_home (lit "2024-01-01_08-00-00.jpg") := lit "jpeg" ]} |}.

(** An encoder that fails and writes the byte 255 to standard error, which
    is not UTF-8. *)
Definition garbled : env :=
  {| timestamp := lit "20240102_080000";
     can_write := true;
     ffmpeg := Exited 1 [255] None;
     can_remove := true |}.

(** [str(e)] for the exceptions these runs meet. *)
Definition sample_text (e : exn) : str :=
  match e with
  | UnicodeDecodeError =>
      lit "'utf-8' codec can't decode byte 0xff in position 0: invalid start byte"
  | OSError => lit "[Errno 2] No such file or directory: 'ffmpeg'"
  | ZeroDivisionError => lit "float division by zero"
  | _ => []
  end.

(** An encoder that fails and writes [No] to standard error. *)
Definition failing : env :=
  {| timestamp := lit "20240102_080000";
     can_write := true;
     ffmpeg := Exited 1 [78; 111] None;
     can_remove := true |}.

(** The encoder is not installed: starting it raises. *)
Definition encoder_missing : env :=
  {| timestamp := lit "20240102_080000";
     can_write := true;
     ffmpeg := CannotStart OSError;
     can_remove := true |}.

(** *** Properties of the script *)

Lemma write_photos_from (float_str : Q -> str) (duration : Q)
  (photos : list str) (written : str) :
  fold_left (write_photo float_str duration) photos written =
    written
    ++ flat_map (fun p => file_line p ++ duration_line float_str duration) photos.
Proof.
  revert written.
  induction photos as [|p photos IH]; intros written; cbn [fold_left flat_map].
  - by rewrite app_nil_r.
  - rewrite IH. unfold write_photo. by rewrite <- !app_assoc.
Qed.

Lemma script_text_lines (float_str : Q -> str) (duration : Q)
  (photos : list str) :
  script_text float_str duration photos =
    flat_map (fun p => file_line p ++ duration_line float_str duration) photos
    ++ match last photos with
       | Some p => file_line p
       | None => []
       end.
Proof.
  unfold script_text. rewrite write_photos_from. cbn [app].
  destruct (last photos); [done | by rewrite app_nil_r].
Qed.

Lemma replace_quote (s : str) :
  replace_from (lit "'") (lit "'\''") O s = spec_escape s.
Proof.
  induction s as [|c s IH]; [done|].
  cbn [replace_from spec_escape flat_map].
  change (startswith (c :: s) (lit "'")) with
    (if (quote =? c)%N then true else false).
  rewrite N.eqb_sym. destruct (c =? quote)%N; simpl; by rewrite IH.
Qed.

Lemma flat_map_entries (float_str : Q -> str) (duration : Q)
  (photos : list str) :
  flat_map (render_entry float_str)
    (List.map (fun p => (p, Some duration)) photos) =
  flat_map (fun p => file_line p ++ duration_line float_str duration) photos.
Proof.
  induction photos as [|p photos IH]; [done|].
  cbn [List.map flat_map]. by rewrite IH.
Qed.

(** C4: for a list of photos that is not empty, the text written to the list
    file is, entry by entry, one [file] line and one [duration] line for each
    photo in the order of the list, and then the [file] line of the last
    photo once more with no [duration] line: one entry more than there are
    photos. *)
Theorem script_is_entries (float_str : Q -> str) (duration : Q)
  (photos : list str) :
  photos <> [] ->
  exists pn,
    last photos = Some pn /\
    spec_entries duration photos =
      List.map (fun p => (p, Some duration)) photos ++ [(pn, None)] /\
    length (spec_entries duration photos) = S (length photos) /\
    script_text float_str duration photos =
      flat_map (render_entry float_str) (spec_entries duration photos) /\
    script_text float_str duration photos =
      flat_map (fun p => file_line p ++ duration_line float_str duration) photos
      ++ file_line pn.
Proof.
  intros Hne.
  destruct (last photos) as [pn|] eqn:Hlast;
    [|by apply last_None in Hlast].
  exists pn. split; [done|].
  unfold spec_entries. rewrite Hlast. split; [done|]. split.
  { rewrite length_app, length_map. simpl. lia. }
  rewrite script_text_lines, Hlast. split; [|done].
  rewrite flat_map_app, flat_map_entries. f_equal.
  unfold render_entry. cbn [flat_map fst snd]. by rewrite !app_nil_r.
Qed.

Lemma script_is_entries_witness :
  abc <> [] /\
  exists pn,
    last abc = Some pn /\
    spec_entries (1 # 5) abc =
      List.map (fun p => (p, Some (1 # 5))) abc ++ [(pn, None)] /\
    length (spec_entries (1 # 5) abc) = S (length abc) /\
    script_text two_tenths (1 # 5) abc =
      flat_map (render_entry two_tenths) (spec_entries (1 # 5) abc) /\
    script_text two_tenths (1 # 5) abc =
      flat_map (fun p => file_line p ++ duration_line two_tenths (1 # 5)) abc
      ++ file_line pn.
Proof.
  assert (abc <> []) as H by discriminate.
  split; [exact H|]. exact (script_is_entries two_tenths (1 # 5) abc H).
Defined.

(** The example of the specification: three photos, four entries. *)
Example script_of_abc :
  spec_entries (1 # 5) abc =
    [(lit "a.jpg", Some (1 # 5)); (lit "b.jpg", Some (1 # 5));
     (lit "c.jpg", Some (1 # 5)); (lit "c.jpg", None)] /\
  script_text two_tenths (1 # 5) abc =
    lit "file 'a.jpg'" ++ newline ++ lit "duration 0.2" ++ newline ++
    lit "file 'b.jpg'" ++ newline ++ lit "duration 0.2" ++ newline ++
    lit "file 'c.jpg'" ++ newline ++ lit "duration 0.2" ++ newline ++
    lit "file 'c.jpg'" ++ newline.
Proof. split; reflexivity. Qed.

(** C10: the name put between the quotes of a [file] line is the photo's
    name with every single quote replaced by quote, backslash, quote, quote;
    every [file] line of the script is built that way, the repeated last one
    too. *)
Theorem script_quotes_escaped (float_str : Q -> str) (duration : Q)
  (photos : list str) :
  (forall photo, escaped photo = spec_escape photo) /\
  script_text float_str duration photos =
    flat_map (fun p => (lit "file '" ++ spec_escape p ++ lit "'" ++ newline)
                       ++ duration_line float_str duration) photos
    ++ match last photos with
       | Some p => lit "file '" ++ spec_escape p ++ lit "'" ++ newline
       | None => []
       end.
Proof.
  assert (forall photo, escaped photo = spec_escape photo) as Hesc
    by (intros photo; exact (replace_quote photo)).
  split; [done|].
  rewrite script_text_lines. unfold file_line. f_equal.
  - apply flat_map_ext. intros p. by rewrite Hesc.
  - destruct (last photos); [|done]. by rewrite Hesc.
Qed.

Lemma read_quoted (photo rest : str) :
  read_token Quoted (spec_escape photo ++ lit "'" ++ newline ++ rest) = photo.
Proof.
  induction photo as [|c photo IH]; [done|].
  cbn [spec_escape flat_map]. fold (spec_escape photo).
  destruct (c =? quote)%N eqn:Hc.
  - apply N.eqb_eq in Hc. subst c. cbn. f_equal. exact IH.
  - cbn [app read_token]. rewrite Hc. f_equal. exact IH.
Qed.

(** What the encoder reads back from a [file] line is the photo's name,
    whatever characters the name has. *)
Lemma file_line_reads_back (photo rest : str) :
  exists line,
    file_line photo ++ rest = lit "file " ++ line /\
    read_token Plain line = photo.
Proof.
  exists (lit "'" ++ spec_escape photo ++ lit "'" ++ newline ++ rest). split.
  - unfold file_line. rewrite (replace_quote photo : escaped photo = _).
    change (lit "file '") with (lit "file " ++ lit "'").
    by rewrite <- !app_assoc.
  - change (lit "'" ++ spec_escape photo ++ lit "'" ++ newline ++ rest)
      with (quote :: (spec_escape photo ++ lit "'" ++ newline ++ rest)).
    cbn [read_token]. apply read_quoted.
Qed.

(** *** Properties of [on_create] *)

(** C6: when the photos directory can be listed and none of its names ends
    in [.jpg] or [.png], [on_create] tells the user that no photos were
    found, starts no thread and leaves the file system as it is (no list
    file, no output file); when at least one name does, it starts one thread
    on the sorted photos. *)
Theorem on_create_needs_photos (w : world) (names : list str) :
  listdir_value (fs w) (default VNone (config w !! lit "photos_directory"))
    = Ok names ->
  (List.filter is_photo names = [] ->
   exists w',
     on_create w = Ok w' /\
     status_label (view w') = lit "No photos found!" /\
     threads w' = threads w /\
     fs w' = fs w /\
     create_button (view w') = create_button (view w)) /\
  (List.filter is_photo names <> [] ->
   exists w',
     on_create w = Ok w' /\
     threads w' =
       threads w ++
       [(default VNone (config w !! lit "photos_directory"),
         sorted (List.filter is_photo names),
         duration_adj (view w))] /\
     fs w' = fs w /\
     create_button (view w') = false).
Proof.
  intros Hls. unfold on_create. rewrite Hls. cbn [bind].
  rewrite sorted_length. split; intros Hph.
  - rewrite Hph. eexists. by split.
  - destruct (List.filter is_photo names) as [|p ps] eqn:Hf; [done|].
    eexists. by split.
Qed.

Lemma on_create_needs_photos_witness :
  listdir_value (fs no_photos)
    (default VNone (config no_photos !! lit "photos_directory"))
    = Ok [lit "notes.txt"] /\
  List.filter is_photo [lit "notes.txt"] = [] /\
  exists w',
    on_create no_photos = Ok w' /\
    status_label (view w') = lit "No photos found!" /\
    threads w' = threads no_photos /\
    fs w' = fs no_photos /\
    create_button (view w') = create_button (view no_photos).
Proof.
  assert (listdir_value (fs no_photos)
            (default VNone (config no_photos !! lit "photos_directory"))
          = Ok [lit "notes.txt"]) as H by (vm_compute; reflexivity).
  assert (List.filter is_photo [lit "notes.txt"] = []) as H0
    by (vm_compute; reflexivity).
  split; [exact H|]. split; [exact H0|].
  exact (proj1 (on_create_needs_photos no_photos [lit "notes.txt"] H) H0).
Defined.

(** *** Properties of the job *)

(** A job that gets as far as starting the encoder, and the encoder exits. *)
Lemma job_when_exited (float_str : Q -> str) (e : env) (f : filesystem)
  (d : str) (photos : list str) (duration : Q)
  (returncode : Z) (stderr : list Z) (output : option str) :
  Qeq_bool duration 0 = false ->
  can_write e && bool_decide (d ∈ dirs f) = true ->
  ffmpeg e = Exited returncode stderr output ->
  let list_file := join d (lit "filelist.txt") in
  let output_file := join d (lit "timelapse_" ++ timestamp e ++ lit ".mp4") in
  exists f3 removal,
    (removal = Removed list_file \/ removal = RemoveFailed list_file) /\
    job float_str e f (VStr d) photos duration =
      mkOutcome f3
        [Wrote list_file (script_text float_str duration photos);
         Started (ffmpeg_cmd list_file output_file) d;
         removal]
        (if returncode =? 0
         then Ok (on_timelapse_complete_with output_file)
         else bind (decode stderr)
                (fun text => Ok (on_timelapse_error_with text))).
Proof.
  intros Hd Hw Hp list_file output_file. unfold job.
  rewrite Hd. cbn [fspath]. rewrite Hw, Hp. cbn [negb].
  fold list_file output_file. unfold remove_quietly.
  match goal with |- context [if ?c then (_, Removed _) else _] =>
    destruct c end;
    (do 2 eexists; split; [|by destruct (returncode =? 0)]); eauto.
Qed.

(** C7, as stated, fails: the encoder exits with 1 and its standard error is
    no text; what the user is shown is the text of the exception that the
    decoding raised. *)
Lemma undecodable_stderr_message :
  decode [255] = Raise UnicodeDecodeError /\
  snd (create_timelapse_thread two_tenths sample_text garbled
         one_photo_fs (VStr photos_home)
         [lit "2024-01-01_08-00-00.jpg"] (1 # 5))
    = on_timelapse_error_with (sample_text UnicodeDecodeError).
Proof. split; by vm_compute. Qed.

(** C7, amended: when the encoder was run and exits with 0, the call handed
    to the main loop is [on_timelapse_complete] with the output path; when it
    exits with another code, it is [on_timelapse_error], with the standard
    error decoded as UTF-8 when it is UTF-8 and with the text of the decoding
    exception otherwise; the label shows at most the first 100 characters of
    that message.  After either call the create button is enabled again. *)
Theorem encode_result_surfaced (float_str : Q -> str) (exn_text : exn -> str)
  (e : env) (f : filesystem) (d : str) (photos : list str) (duration : Q)
  (returncode : Z) (stderr : list Z) (output : option str)
  (v : TimelapseView) :
  Qeq_bool duration 0 = false ->
  can_write e && bool_decide (d ∈ dirs f) = true ->
  ffmpeg e = Exited returncode stderr output ->
  let cb := snd (create_timelapse_thread float_str exn_text e f (VStr d)
                   photos duration) in
  let message :=
    match decode stderr with
    | Ok text => text
    | Raise ex => exn_text ex
    end in
  cb = (if returncode =? 0
        then on_timelapse_complete_with
               (join d (lit "timelapse_" ++ timestamp e ++ lit ".mp4"))
        else on_timelapse_error_with message) /\
  (returncode <> 0 ->
   status_label (call cb v) = lit "Error: " ++ slice_to 100 message /\
   (length (slice_to 100 message) <= 100)%nat) /\
  create_button (call cb v) = true.
Proof.
  intros Hd Hw Hp cb message.
  destruct (job_when_exited float_str e f d photos duration
              returncode stderr output Hd Hw Hp) as (f3 & removal & _ & Hjob).
  assert (cb = if returncode =? 0
               then on_timelapse_complete_with
                      (join d (lit "timelapse_" ++ timestamp e ++ lit ".mp4"))
               else on_timelapse_error_with message) as Hcb.
  { unfold cb, create_timelapse_thread. rewrite Hjob. cbn [snd raised_or_called].
    destruct (returncode =? 0); [done|].
    unfold message. by destruct (decode stderr). }
  split; [done|]. rewrite Hcb. split.
  - intros Hrc. apply Z.eqb_neq in Hrc. rewrite Hrc. cbn [call].
    split; [done|]. unfold slice_to. rewrite length_take. lia.
  - by destruct (returncode =? 0).
Qed.

Lemma encode_result_surfaced_witness :
  snd (create_timelapse_thread two_tenths sample_text failing
         one_photo_fs (VStr photos_home)
         [lit "2024-01-01_08-00-00.jpg"] (1 # 5))
    = on_timelapse_error_with (lit "No").
Proof.
  assert (Qeq_bool (1 # 5) 0 = false) as Hd by reflexivity.
  assert (can_write failing && bool_decide (photos_home ∈ dirs one_photo_fs)
          = true) as Hw by (vm_compute; reflexivity).
  assert (ffmpeg failing = Exited 1 [78; 111] None) as Hp by reflexivity.
  exact (proj1 (encode_result_surfaced two_tenths sample_text failing
                  one_photo_fs photos_home [lit "2024-01-01_08-00-00.jpg"]
                  (1 # 5) 1 [78; 111] None fresh_view Hd Hw Hp)).
Defined.

(** When the encoder exits, the list file is removed (if the system lets it
    be removed), whatever the return code. *)
Lemma list_file_removed_after_exit (float_str : Q -> str) (e : env)
  (f : filesystem) (d : str) (photos : list str) (duration : Q)
  (returncode : Z) (stderr : list Z) (output : option str) :
  Qeq_bool duration 0 = false ->
  can_write e && bool_decide (d ∈ dirs f) = true ->
  ffmpeg e = Exited returncode stderr output ->
  can_remove e = true ->
  join d (lit "filelist.txt")
    <> join d (lit "timelapse_" ++ timestamp e ++ lit ".mp4") ->
  files (fs_after (job float_str e f (VStr d) photos duration))
    !! join d (lit "filelist.txt") = None.
Proof.
  intros Hd Hw Hp Hr Hne. unfold job.
  rewrite Hd. cbn [fspath]. rewrite Hw, Hp. cbn [negb].
  unfold remove_quietly. rewrite Hr. cbn [andb].
  rewrite bool_decide_eq_true_2.
  - destruct (returncode =? 0); cbn [fs_after del_file files];
      apply lookup_delete_eq.
  - destruct output; cbn [add_file files].
    + rewrite lookup_insert_ne by done. rewrite lookup_insert_eq. eauto.
    + rewrite lookup_insert_eq. eauto.
Qed.

(** C8 does not hold of the code.  The list file is written, starting the
    encoder raises, and the handler of the exception reports the error
    without removing the file: the removal stands after the call that
    raised, inside the [try].  The file is still there when the job ends. *)
Lemma list_file_left_behind :
  effects (job two_tenths encoder_missing one_photo_fs (VStr photos_home)
             [lit "2024-01-01_08-00-00.jpg"] (1 # 5))
    = [Wrote (join photos_home (lit "filelist.txt"))
         (script_text two_tenths (1 # 5) [lit "2024-01-01_08-00-00.jpg"]);
       Started
         (ffmpeg_cmd (join photos_home (lit "filelist.txt"))
            (join photos_home (lit "timelapse_20240102_080000.mp4")))
         photos_home] /\
  files (fst (fst (create_timelapse_thread two_tenths sample_text
                     encoder_missing one_photo_fs (VStr photos_home)
                     [lit "2024-01-01_08-00-00.jpg"] (1 # 5))))
    !! join photos_home (lit "filelist.txt")
    = Some (script_text two_tenths (1 # 5) [lit "2024-01-01_08-00-00.jpg"]) /\
  snd (create_timelapse_thread two_tenths sample_text
         encoder_missing one_photo_fs (VStr photos_home)
         [lit "2024-01-01_08-00-00.jpg"] (1 # 5))
    = on_timelapse_error_with (sample_text OSError).
Proof. split; [by vm_compute|]. split; by vm_compute. Qed.

End TimelapseView.

(** ** More on the configuration store *)

Module ConfigFacts.
Import Py Config.

(** The time that passes in a list of events. *)
Definition span (events : list event) : N :=
  fold_right (fun e t => match e with
                         | Elapse ms => (ms + t)%N
                         | Set_ _ _ => t
                         end) 0%N events.

(** A save is pending and its timeout is registered. *)
Definition armed (id : positive) (due : N) (w : world) : Prop :=
  _save_pending (cfg w) = true /\
  GLib.sources (main_loop w) = [(id, due)] /\
  writable w = true.

(** Nothing is pending and no timeout is registered. *)
Definition quiet (w : world) : Prop :=
  _save_pending (cfg w) = false /\
  GLib.sources (main_loop w) = [] /\
  writable w = true.

(** A save is marked pending and no timeout will ever call it. *)
Definition stuck (w : world) : Prop :=
  _save_pending (cfg w) = true /\ GLib.sources (main_loop w) = [].

(** What every run keeps. *)
Definition tidy (w : world) : Prop :=
  (length (GLib.sources (main_loop w)) <= 1)%nat /\
  (_save_pending (cfg w) = false -> GLib.sources (main_loop w) = []).

(** A store whose file cannot be written. *)
Definition read_only_boot : world :=
  {| cfg := init home_pictures Missing;
     main_loop := GLib.fresh;
     disk := Missing;
     writable := false;
     writes := [] |}.

(** The state after a change whose save failed, the file being writable
    again. *)
Definition after_failed_save : world :=
  let w := run [Set_ (lit "guide_x") (VFloat (1 # 10)); Elapse 500]
             read_only_boot in
  {| cfg := cfg w;
     main_loop := main_loop w;
     disk := disk w;
     writable := true;
     writes := writes w |}.

(** *** Properties *)

Lemma filter_one_source (id : positive) (due : N) :
  List.filter (fun s : positive * N => negb (Pos.eqb (fst s) id)) [(id, due)]
    = [].
Proof. simpl. by rewrite Pos.eqb_refl. Qed.

Lemma set_data (key : str) (v : value) (w : world) :
  data (cfg (set key v w)) = <[key := v]> (data (cfg w)).
Proof. unfold set, save. simpl. by destruct (_save_pending (cfg w)). Qed.

Lemma set_keeps_files (key : str) (v : value) (w : world) :
  writes (set key v w) = writes w /\ disk (set key v w) = disk w /\
  writable (set key v w) = writable w /\
  GLib.now (main_loop (set key v w)) = GLib.now (main_loop w).
Proof.
  unfold set, save. simpl. destruct (_save_pending (cfg w)); simpl; [done|].
  by destruct (_save_timer (cfg w)).
Qed.

Lemma set_when_quiet (key : str) (v : value) (w : world) :
  quiet w ->
  armed (GLib.next_id (main_loop w)) (GLib.now (main_loop w) + 500) (set key v w).
Proof.
  intros (Hp & Hs & Hw). unfold armed, set, save. simpl. rewrite Hp. simpl.
  destruct (_save_timer (cfg w)); simpl; rewrite Hs; simpl; done.
Qed.

Lemma set_when_armed (id : positive) (due : N) (key : str) (v : value)
  (w : world) :
  armed id due w -> armed id due (set key v w).
Proof.
  intros (Hp & Hs & Hw). unfold armed, set, save. simpl. by rewrite Hp.
Qed.

Lemma elapse_before_due (id : positive) (due ms : N) (w : world) :
  armed id due w ->
  (GLib.now (main_loop w) + ms < due)%N ->
  armed id due (elapse ms w) /\
  data (cfg (elapse ms w)) = data (cfg w) /\
  writes (elapse ms w) = writes w /\
  GLib.now (main_loop (elapse ms w)) = (GLib.now (main_loop w) + ms)%N.
Proof.
  intros (Hp & Hs & Hw) Hlt. unfold armed, elapse. rewrite Hs. simpl.
  destruct (N.leb_spec due (GLib.now (main_loop w) + ms)); [lia|]. simpl.
  done.
Qed.

Lemma elapse_past_due (id : positive) (due ms : N) (w : world) :
  armed id due w ->
  (due <= GLib.now (main_loop w) + ms)%N ->
  quiet (elapse ms w) /\
  data (cfg (elapse ms w)) = data (cfg w) /\
  writes (elapse ms w) = writes w ++ [(due, data (cfg w))] /\
  disk (elapse ms w) = Document (data (cfg w)).
Proof.
  intros (Hp & Hs & Hw) Hle. unfold quiet, elapse. rewrite Hs. simpl.
  destruct (N.leb_spec due (GLib.now (main_loop w) + ms)); [|lia]. simpl.
  unfold dispatch, _do_save. simpl. rewrite Hw. simpl.
  rewrite Hs, filter_one_source. done.
Qed.

Lemma run_app (a b : list event) (w : world) :
  run (a ++ b) w = run b (run a w).
Proof. apply fold_left_app. Qed.

Lemma window_keeps_armed (rest : list event) (id : positive) (due : N)
  (w : world) :
  armed id due w ->
  (GLib.now (main_loop w) + span rest < due)%N ->
  armed id due (run rest w) /\
  writes (run rest w) = writes w /\
  GLib.now (main_loop (run rest w)) = (GLib.now (main_loop w) + span rest)%N.
Proof.
  revert w. induction rest as [|[key v|ms] rest IH]; intros w Ha Hlt.
  - simpl in *. repeat split; [apply Ha.. | lia].
  - simpl in Hlt. destruct (set_keeps_files key v w) as (Hwr & _ & _ & Hnow).
    destruct (IH (set key v w)) as (Ha' & Hwr' & Hnow').
    + by apply set_when_armed.
    + by rewrite Hnow.
    + change (run (Set_ key v :: rest) w) with (run rest (set key v w)).
      rewrite Hwr', Hnow', Hwr, Hnow. done.
  - simpl in Hlt.
    destruct (elapse_before_due id due ms w Ha) as (Ha1 & _ & Hwr & Hnow);
      [lia|].
    destruct (IH (elapse ms w)) as (Ha' & Hwr' & Hnow'); [done | lia |].
    change (run (Elapse ms :: rest) w) with (run rest (elapse ms w)).
    rewrite Hwr', Hnow', Hwr, Hnow. simpl span.
    repeat split; [apply Ha'.. | lia].
Qed.

(** X1: a change is seen at once by [get] and by no one else: the other keys
    keep their values, and neither the file nor the record of writes changes
    when [set] returns. *)
Theorem set_then_get (key key' : str) (v : value) (w : world) :
  get (cfg (set key v w)) key' =
    (if decide (key = key') then v else get (cfg w) key') /\
  writes (set key v w) = writes w /\
  disk (set key v w) = disk w.
Proof.
  split; [|split; apply set_keeps_files].
  unfold get. rewrite set_data. case_decide as Hk.
  - subst. by rewrite lookup_insert_eq.
  - by rewrite lookup_insert_ne.
Qed.

(** X2: changes that follow one another within less than 500 ms of the first
    are saved together: nothing is written while they arrive, and 500 ms
    after the first one the file is written once, with the dictionary as the
    last of them left it. *)
Theorem sets_coalesce (key : str) (v : value) (rest : list event) (ms : N)
  (w : world) :
  quiet w ->
  (span rest < 500)%N ->
  (500 <= span rest + ms)%N ->
  writes (run (Set_ key v :: rest) w) = writes w /\
  writes (run (Set_ key v :: rest ++ [Elapse ms]) w) =
    writes w ++ [((GLib.now (main_loop w) + 500)%N,
                  data (cfg (run (Set_ key v :: rest) w)))] /\
  disk (run (Set_ key v :: rest ++ [Elapse ms]) w) =
    Document (data (cfg (run (Set_ key v :: rest) w))) /\
  quiet (run (Set_ key v :: rest ++ [Elapse ms]) w).
Proof.
  intros Hq Hspan Hms.
  pose proof (set_when_quiet key v w Hq) as Ha.
  destruct (set_keeps_files key v w) as (Hwr & _ & _ & Hnow).
  destruct (window_keeps_armed rest _ _ (set key v w) Ha)
    as (Ha' & Hwr' & Hnow'); [rewrite Hnow; lia|].
  change (run (Set_ key v :: rest) w) with (run rest (set key v w)).
  change (run (Set_ key v :: rest ++ [Elapse ms]) w)
    with (run (rest ++ [Elapse ms]) (set key v w)).
  rewrite run_app. cbn [run fold_left handle].
  fold (run rest (set key v w)).
  destruct (elapse_past_due _ _ ms _ Ha') as (Hq' & _ & Hw2 & Hd2);
    [rewrite Hnow', Hnow; lia|].
  rewrite Hw2, Hd2, Hwr', Hwr. done.
Qed.

Lemma sets_coalesce_witness :
  writes (run (Set_ (lit "guide_x") (VFloat (1 # 10))
               :: [Elapse 200; Set_ (lit "guide_y") (VFloat (1 # 5));
                   Elapse 200; Set_ (lit "guide_x") (VFloat (3 # 10))]
                  ++ [Elapse 100])
            (boot home_pictures Missing)) =
    writes (boot home_pictures Missing) ++
    [((GLib.now (main_loop (boot home_pictures Missing)) + 500)%N,
      data (cfg (run (Set_ (lit "guide_x") (VFloat (1 # 10))
                      :: [Elapse 200; Set_ (lit "guide_y") (VFloat (1 # 5));
                          Elapse 200; Set_ (lit "guide_x") (VFloat (3 # 10))])
                   (boot home_pictures Missing))))].
Proof.
  assert (quiet (boot home_pictures Missing)) as Hq by (by repeat split).
  assert (span [Elapse 200; Set_ (lit "guide_y") (VFloat (1 # 5));
                Elapse 200; Set_ (lit "guide_x") (VFloat (3 # 10))] < 500)%N
    as Hs by (vm_compute; reflexivity).
  assert (500 <= span [Elapse 200; Set_ (lit "guide_y") (VFloat (1 # 5));
                       Elapse 200; Set_ (lit "guide_x") (VFloat (3 # 10))]
                 + 100)%N
    as Hm by (vm_compute; discriminate).
  exact (proj1 (proj2 (sets_coalesce (lit "guide_x") (VFloat (1 # 10)) _ 100
                         (boot home_pictures Missing) Hq Hs Hm))).
Defined.

Lemma handle_stuck (e : event) (w : world) :
  stuck w ->
  stuck (handle w e) /\ writes (handle w e) = writes w /\
  disk (handle w e) = disk w.
Proof.
  intros (Hp & Hs). destruct e as [key v|ms]; simpl.
  - unfold stuck, set, save. simpl. by rewrite Hp.
  - unfold stuck, elapse. rewrite Hs. simpl. by rewrite Hp, Hs.
Qed.

(** X3: when a save is marked pending and its timeout is gone -- the state a
    failed write leaves behind -- no later change is ever written: [set]
    registers no timeout while the mark stands, and nothing clears the
    mark. *)
Theorem failed_save_never_retried (events : list event) (w : world) :
  stuck w ->
  writes (run events w) = writes w /\
  disk (run events w) = disk w /\
  stuck (run events w).
Proof.
  revert w. induction events as [|e events IH]; intros w Hs; [done|].
  destruct (handle_stuck e w Hs) as (Hs' & Hw & Hd).
  destruct (IH (handle w e) Hs') as (Hw' & Hd' & Hs'').
  change (run (e :: events) w) with (run events (handle w e)).
  by rewrite Hw', Hd', Hw, Hd.
Qed.

Lemma failed_save_never_retried_witness :
  stuck after_failed_save /\
  writable after_failed_save = true /\
  writes (run [Set_ (lit "guide_x") (VFloat (1 # 5)); Elapse 1000]
            after_failed_save) = [] /\
  disk (run [Set_ (lit "guide_x") (VFloat (1 # 5)); Elapse 1000]
          after_failed_save) = Missing.
Proof.
  assert (stuck after_failed_save) as Hs by (split; reflexivity).
  split; [exact Hs|]. split; [reflexivity|].
  destruct (failed_save_never_retried
              [Set_ (lit "guide_x") (VFloat (1 # 5)); Elapse 1000]
              after_failed_save Hs) as (Hw & Hd & _).
  split; [exact Hw | exact Hd].
Defined.

Lemma handle_tidy (e : event) (w : world) : tidy w -> tidy (handle w e).
Proof.
  intros (Hlen & Hq). destruct e as [key v|ms]; simpl.
  - unfold tidy, set, save. simpl.
    destruct (_save_pending (cfg w)) eqn:Hp; simpl; [by split|].
    rewrite (Hq eq_refl) in *.
    destruct (_save_timer (cfg w)); simpl; rewrite ?(Hq eq_refl); simpl;
      split; (lia || done).
  - unfold tidy, elapse.
    destruct (GLib.sources (main_loop w)) as [|[id due] [|s2 l]] eqn:Hs;
      simpl in Hlen; [| |lia].
    + simpl. rewrite Hs. simpl. split; [lia | done].
    + simpl. destruct (due <=? GLib.now (main_loop w) + ms)%N; simpl.
      * unfold dispatch, _do_save. simpl.
        destruct (writable w); simpl; rewrite Hs, filter_one_source; simpl;
          split; (lia || done).
      * rewrite Hs. simpl. split; [lia|]. intros Hp. by specialize (Hq Hp).
Qed.

(** X4: whatever the user does and however time passes, at most one save
    timeout is registered, and none when no save is pending. *)
Theorem one_timeout_at_most (events : list event) (default_photos : str)
  (f : file) :
  (length (GLib.sources
             (main_loop (run events (boot default_photos f)))) <= 1)%nat /\
  (_save_pending (cfg (run events (boot default_photos f))) = false ->
   GLib.sources (main_loop (run events (boot default_photos f))) = []).
Proof.
  assert (forall w, tidy w -> tidy (run events w)) as H.
  { induction events as [|e events IH]; intros w Ht; [done|].
    apply (IH (handle w e)). by apply handle_tidy. }
  apply H. split; [simpl; lia | done].
Qed.

End ConfigFacts.

(** ** More on the camera thread *)

Module CameraThreadFacts.
Import Py CameraThread.

(** The presentation loop over time: between two calls of [get_frame] the
    worker runs through a burst of reads.  The list holds what each call
    returned. *)
Fixpoint poll (q : Queue) (bursts : list (list (bool * Frame)))
  : list (option Frame) :=
  match bursts with
  | [] => []
  | reads :: bursts' =>
      match get_frame (run_loop q reads) with
      | Some (frame, q') => frame :: poll q' bursts'
      | None => []
      end
  end.

(** The presentation thread about to call [get_nowait], one frame queued. *)
Definition about_to_take : shared :=
  mkShared (run_iter frame_queue_init (true, pixel_frame 10 20 30))
    (Taking None).

(** *** Properties *)

Lemma swap_channels_twice_upto (n : nat) (d : list Z) :
  (length d <= n)%nat -> swap_channels (swap_channels d) = d.
Proof.
  revert d. induction n as [|n IH]; intros d Hn.
  - destruct d; [done | simpl in Hn; lia].
  - destruct d as [|b [|g [|r rest]]]; try done.
    cbn [swap_channels]. rewrite IH; [done|]. simpl in Hn. lia.
Qed.

Lemma swap_channels_length_upto (n : nat) (d : list Z) :
  (length d <= n)%nat -> length (swap_channels d) = length d.
Proof.
  revert d. induction n as [|n IH]; intros d Hn.
  - destruct d; [done | simpl in Hn; lia].
  - destruct d as [|b [|g [|r rest]]]; try done.
    cbn [swap_channels length]. rewrite IH; [done|]. simpl in Hn. lia.
Qed.

(** Exchanging the first and third channel twice gives the frame back: the
    conversion to RGB for the display and the conversion back to BGR for
    the file undo one another, and neither changes the size of the frame. *)
Theorem cvtColor_round_trip (f : Frame) :
  cvtColor_BGR2RGB (cvtColor_BGR2RGB f) = f /\
  length (data (cvtColor_BGR2RGB f)) = length (data f) /\
  rows (cvtColor_BGR2RGB f) = rows f /\ cols (cvtColor_BGR2RGB f) = cols f.
Proof.
  split; [|split; [|done]].
  - destruct f as [r c d]. unfold cvtColor_BGR2RGB. simpl.
    by rewrite (swap_channels_twice_upto (length d)).
  - simpl. by apply (swap_channels_length_upto (length (data f))).
Qed.

Lemma emptied_bounded : bounded {| maxsize := 2; items := [] |}.
Proof. split; [done | unfold qsize; simpl; lia]. Qed.

Lemma poll_from_empty (bursts : list (list (bool * Frame))) :
  Forall (fun reads => (length (produced reads) <= 2)%nat) bursts ->
  poll {| maxsize := 2; items := [] |} bursts =
    List.map (fun reads => last (produced reads)) bursts.
Proof.
  induction 1 as [|reads bursts Hlen _ IH]; [done|].
  cbn [poll List.map].
  rewrite get_frame_after_run by apply emptied_bounded.
  cbn [items app]. rewrite take_ge by done. by rewrite IH.
Qed.

(** X5: a presentation loop that keeps up sees every newest frame: when no more
    than two frames are produced between two calls of [get_frame], each call
    returns the newest frame produced since the call before, and [None] when
    none was produced. *)
Theorem poll_sees_newest (bursts : list (list (bool * Frame))) :
  Forall (fun reads => (length (produced reads) <= 2)%nat) bursts ->
  poll frame_queue_init bursts =
    List.map (fun reads => last (produced reads)) bursts.
Proof. apply poll_from_empty. Qed.

Lemma poll_sees_newest_witness :
  poll frame_queue_init
    [[(true, pixel_frame 10 20 30)]; [];
     [(true, pixel_frame 40 50 60); (false, pixel_frame 0 0 0);
      (true, pixel_frame 70 80 90)]]
  = [Some (pixel_frame 30 20 10); None; Some (pixel_frame 90 80 70)].
Proof.
  assert (Forall (fun reads => (length (produced reads) <= 2)%nat)
            [[(true, pixel_frame 10 20 30)]; [];
             [(true, pixel_frame 40 50 60); (false, pixel_frame 0 0 0);
              (true, pixel_frame 70 80 90)]]) as H.
  { repeat constructor. }
  exact (poll_sees_newest _ H).
Defined.

Lemma reachable_taking (s : shared) :
  reachable s ->
  match cons s with
  | Taking _ => empty (chan s) = false
  | _ => True
  end.
Proof.
  induction 1 as [|s s' _ IH Hstep]; [done|].
  inversion Hstep as [q c read|q|q frame He|q frame He|q frame x q' Hget
                     |q frame e Hget]; subst; simpl in *; try done.
  destruct c; try done.
  destruct read as [[] raw]; simpl; [|done].
  unfold put_or_drop, put_nowait. destruct (full q); [done|].
  unfold empty in *. simpl. by destruct (items q).
Qed.

(** X6: the [except queue.Empty] of [get_frame] is never taken: in every state
    the two threads can reach, a call of [get_nowait] that follows the test
    [not empty()] finds an item, because the worker only adds to the queue. *)
Theorem get_nowait_never_raises (s : shared) (frame : option Frame) :
  reachable s ->
  cons s = Taking frame ->
  exists x q', get_nowait (chan s) = Ok (x, q').
Proof.
  intros Hr Hc. pose proof (reachable_taking s Hr) as H. rewrite Hc in H.
  unfold empty in H. unfold get_nowait.
  destruct (items (chan s)); [done | eauto].
Qed.

Lemma get_nowait_never_raises_witness :
  reachable about_to_take /\
  exists x q', get_nowait (chan about_to_take) = Ok (x, q').
Proof.
  assert (reachable about_to_take) as H.
  { eapply reach_step; [eapply reach_step; [eapply reach_step;
      [apply reach_start | apply (step_worker _ _ (true, pixel_frame 10 20 30))]
      | apply step_call] | by apply step_enter_body]. }
  split; [exact H|].
  exact (get_nowait_never_raises about_to_take None H eq_refl).
Defined.

End CameraThreadFacts.

(** ** More on the camera view *)

Module CameraViewFacts.
Import Py CameraThread CameraView.

(** [cv2.cvtColor(frame, cv2.COLOR_RGB2BGR)]: the same exchange of the first
    and third channel as on the way in. *)
Definition cvtColor_RGB2BGR (f : Frame) : Frame :=
  {| rows := rows f; cols := cols f; data := swap_channels (data f) |}.

(** [CameraView.on_save]: the view, and the frame handed to
    [on_photo_taken_callback] when there is one. *)
Definition on_save (v : CameraView) : CameraView * option Frame :=
  match captured_frame v with
  | Some f => (reset_capture v, Some (cvtColor_RGB2BGR f))
  | None => (v, None)
  end.

(** [CameraView.on_discard] *)
Definition on_discard (v : CameraView) : CameraView := reset_capture v.

(** [CameraView.stop_camera] *)
Definition stop_camera (v : CameraView) : CameraView :=
  match camera_thread v with
  | Some _ =>
      {| camera_thread := None;
         captured_frame := captured_frame v;
         preview_mode := preview_mode v;
         current_frame := current_frame v;
         cached_pixbuf := cached_pixbuf v;
         last_frame_size := last_frame_size v;
         capture_button := capture_button v;
         save_button := save_button v;
         discard_button := discard_button v;
         guide_toggle := guide_toggle v;
         dragging := dragging v |}
  | None => v
  end.

(** What happens to the view: the worker produces and the timeout calls
    [update_frame], the widget is drawn, a button is clicked, the camera is
    started or stopped. *)
Inductive ui_event : Type :=
| Tick (reads : list (bool * Frame))
| Draw (width height : Z)
| Capture
| Save
| Discard
| StartCamera
| StopCamera.

Section Events.

Variable scale_simple : Pixbuf -> Z -> Z -> option Pixbuf.

Definition ui_step (v : CameraView) (e : ui_event) : CameraView :=
  match e with
  | Tick reads => fst (fst (update_frame (worker_runs reads v)))
  | Draw width height => fst (on_draw scale_simple width height v)
  | Capture => on_capture v
  | Save => fst (on_save v)
  | Discard => on_discard v
  | StartCamera => start_camera v
  | StopCamera => stop_camera v
  end.

Definition ui_run (events : list ui_event) (v : CameraView) : CameraView :=
  fold_left ui_step events v.

End Events.

(** The buttons agree with the mode, and a still is held exactly in review
    mode. *)
Definition consistent (v : CameraView) : Prop :=
  preview_mode v = bool_decide (is_Some (captured_frame v)) /\
  capture_button v = negb (preview_mode v) /\
  save_button v = preview_mode v /\
  discard_button v = preview_mode v /\
  guide_toggle v = negb (preview_mode v).

(** A view that shows the white frame. *)
Definition showing_white : CameraView :=
  fst (tick_and_draw copy_at_same_size 4 3 [(true, white)] after_black).

(** *** Properties *)

Lemma update_frame_fields (v : CameraView) :
  captured_frame (fst (fst (update_frame v))) = captured_frame v /\
  preview_mode (fst (fst (update_frame v))) = preview_mode v /\
  capture_button (fst (fst (update_frame v))) = capture_button v /\
  save_button (fst (fst (update_frame v))) = save_button v /\
  discard_button (fst (fst (update_frame v))) = discard_button v /\
  guide_toggle (fst (fst (update_frame v))) = guide_toggle v.
Proof.
  unfold update_frame. destruct (camera_thread v) as [[[] q]|]; try done.
  destruct (preview_mode v) eqn:Hp; simpl; [by rewrite Hp|].
  by destruct (default (None, q) (get_frame q)).
Qed.

Lemma on_draw_fields (scale_simple : Pixbuf -> Z -> Z -> option Pixbuf)
  (width height : Z) (v : CameraView) :
  captured_frame (fst (on_draw scale_simple width height v)) = captured_frame v /\
  preview_mode (fst (on_draw scale_simple width height v)) = preview_mode v /\
  capture_button (fst (on_draw scale_simple width height v)) = capture_button v /\
  save_button (fst (on_draw scale_simple width height v)) = save_button v /\
  discard_button (fst (on_draw scale_simple width height v)) = discard_button v /\
  guide_toggle (fst (on_draw scale_simple width height v)) = guide_toggle v /\
  current_frame (fst (on_draw scale_simple width height v)) = current_frame v.
Proof.
  unfold on_draw.
  destruct (if preview_mode v then captured_frame v else current_frame v)
    as [f|]; [|done].
  destruct (fit (cols f) (rows f) width height) as [[[[nw nh] x] y]|]; [|done].
  simpl. by destruct (_ || _).
Qed.

Lemma ui_step_consistent (scale_simple : Pixbuf -> Z -> Z -> option Pixbuf)
  (e : ui_event) (v : CameraView) :
  consistent v -> consistent (ui_step scale_simple v e).
Proof.
  intros (Hm & Hc & Hs & Hd & Hg). unfold consistent. destruct e; simpl.
  - destruct (update_frame_fields (worker_runs reads v))
      as (-> & -> & -> & -> & -> & ->). done.
  - destruct (on_draw_fields scale_simple width height v)
      as (-> & -> & -> & -> & -> & -> & _). done.
  - unfold on_capture. destruct (current_frame v); [|by repeat split].
    cbn [preview_mode captured_frame capture_button save_button
         discard_button guide_toggle].
    rewrite bool_decide_eq_true_2 by eauto. by repeat split.
  - unfold on_save. destruct (captured_frame v) eqn:Hcap; cbn [fst];
      [|rewrite Hcap; by repeat split].
    unfold reset_capture.
    cbn [fst preview_mode captured_frame capture_button save_button
         discard_button guide_toggle].
    rewrite bool_decide_eq_false_2 by (by intros [? ?]). by repeat split.
  - by repeat split.
  - unfold start_camera. by destruct (camera_thread v).
  - unfold stop_camera. by destruct (camera_thread v).
Qed.

(** X7: whatever is clicked and whenever frames arrive, Save and Discard can be
    clicked exactly while a captured still is under review, and Take Photo
    and the guide toggle exactly while it is not. *)
Theorem buttons_follow_mode (scale_simple : Pixbuf -> Z -> Z -> option Pixbuf)
  (events : list ui_event) :
  let v := ui_run scale_simple events init in
  preview_mode v = bool_decide (is_Some (captured_frame v)) /\
  capture_button v = negb (preview_mode v) /\
  save_button v = preview_mode v /\
  discard_button v = preview_mode v /\
  guide_toggle v = negb (preview_mode v).
Proof.
  assert (forall v, consistent v -> consistent (ui_run scale_simple events v))
    as H.
  { induction events as [|e events IH]; intros v Hv; [done|].
    apply (IH (ui_step scale_simple v e)). by apply ui_step_consistent. }
  apply (H init). by repeat split.
Qed.

Lemma on_draw_without_cache (scale_simple : Pixbuf -> Z -> Z -> option Pixbuf)
  (width height : Z) (v : CameraView) :
  cached_pixbuf v = None ->
  snd (on_draw scale_simple width height v) =
    on_draw_uncached scale_simple width height v.
Proof.
  intros Hc. unfold on_draw, on_draw_uncached.
  destruct (if preview_mode v then captured_frame v else current_frame v)
    as [f|]; [|done].
  destruct (fit (cols f) (rows f) width height) as [[[[nw nh] x] y]|]; [|done].
  rewrite Hc. rewrite (bool_decide_eq_false_2 (is_Some None)) by (by intros [? ?]).
  rewrite orb_true_r. done.
Qed.

(** X8: where the kept pixbuf is cleared, the cache is not seen: the draw that
    follows Take Photo paints the still that was captured, and the draw that
    follows Save or Discard paints the current frame, each as a draw without
    a cache would. *)
Theorem draw_after_capture_or_reset
  (scale_simple : Pixbuf -> Z -> Z -> option Pixbuf) (width height : Z)
  (v : CameraView) (f : Frame) :
  current_frame v = Some f ->
  snd (on_draw scale_simple width height (on_capture v)) =
    on_draw_uncached scale_simple width height (on_capture v) /\
  captured_frame (on_capture v) = Some f /\
  snd (on_draw scale_simple width height (reset_capture v)) =
    on_draw_uncached scale_simple width height (reset_capture v) /\
  snd (on_draw scale_simple width height (on_discard (on_capture v))) =
    on_draw_uncached scale_simple width height (on_discard (on_capture v)).
Proof.
  intros Hf. repeat split; try (by apply on_draw_without_cache).
  - apply on_draw_without_cache. unfold on_capture. by rewrite Hf.
  - unfold on_capture. by rewrite Hf.
Qed.

Lemma draw_after_capture_or_reset_witness :
  current_frame showing_white = Some white /\
  snd (on_draw copy_at_same_size 4 3 (on_capture showing_white)) =
    on_draw_uncached copy_at_same_size 4 3 (on_capture showing_white).
Proof.
  assert (current_frame showing_white = Some white) as H by reflexivity.
  split; [exact H|].
  exact (proj1 (draw_after_capture_or_reset copy_at_same_size 4 3
                  showing_white white H)).
Defined.

(** X9: the photo that is saved is the frame the camera delivered: the frame is
    turned to RGB when it is queued and back to BGR when it is saved, and
    capture keeps it as it is. *)
Theorem saved_frame_is_camera_frame (v : CameraView) (q : Queue)
  (raw : Frame) :
  camera_thread v = Some (true, q) ->
  bounded q ->
  items q = [] ->
  preview_mode v = false ->
  snd (on_save (on_capture
         (fst (fst (update_frame (worker_runs [(true, raw)] v))))))
    = Some raw.
Proof.
  intros Ht Hb Hi Hp.
  destruct (update_frame_takes (put_or_drop q (cvtColor_BGR2RGB raw))
              (worker_runs [(true, raw)] v) (cvtColor_BGR2RGB raw))
    as (Hcur & _ & _ & Hprev).
  - unfold worker_runs. simpl. by rewrite Ht.
  - done.
  - rewrite put_or_drop_items by done. rewrite Hi. done.
  - unfold on_save, on_capture. rewrite Hcur. simpl.
    unfold cvtColor_RGB2BGR. simpl. destruct raw as [r c d]. simpl.
    by rewrite (CameraThreadFacts.swap_channels_twice_upto (length d)).
Qed.

Lemma saved_frame_is_camera_frame_witness :
  snd (on_save (on_capture
         (fst (fst (update_frame
            (worker_runs [(true, pixel_frame 10 20 30)]
               (start_camera init)))))))
    = Some (pixel_frame 10 20 30).
Proof.
  exact (saved_frame_is_camera_frame (start_camera init) frame_queue_init
           (pixel_frame 10 20 30) eq_refl frame_queue_init_bounded
           eq_refl eq_refl).
Defined.

Lemma int_of_float_bounds (q : Q) (n : Z) :
  (0 <= q)%Q -> (q <= inject_Z n)%Q -> 0 <= int_of_float q <= n.
Proof.
  destruct q as [a b]. unfold Qle, int_of_float. simpl. intros H0 Hn.
  assert (0 <= a) as Ha by lia.
  rewrite Z.quot_div_nonneg by lia. split.
  - apply Z.div_pos; lia.
  - apply Z.div_le_upper_bound; lia.
Qed.

Lemma fmin_le_l (a b : Q) : (fmin a b <= a)%Q.
Proof.
  unfold fmin. destruct (Qle_bool a b) eqn:H; [apply Qle_refl|].
  apply Qlt_le_weak, Qnot_le_lt. intros Hle.
  apply Qle_bool_iff in Hle. congruence.
Qed.

Lemma fmin_le_r (a b : Q) : (fmin a b <= b)%Q.
Proof.
  unfold fmin. destruct (Qle_bool a b) eqn:H; [|apply Qle_refl].
  by apply Qle_bool_iff.
Qed.

Lemma fmin_nonneg (a b : Q) : (0 <= a)%Q -> (0 <= b)%Q -> (0 <= fmin a b)%Q.
Proof. intros Ha Hb. unfold fmin. by destruct (Qle_bool a b). Qed.

Lemma ratio_nonneg (a b : Z) :
  0 <= a -> 0 < b -> (0 <= inject_Z a / inject_Z b)%Q.
Proof.
  intros Ha Hb. apply Qle_shift_div_l.
  - unfold Qlt. simpl. lia.
  - rewrite Qmult_0_l. unfold Qle. simpl. lia.
Qed.

Lemma scaled_side (a b : Z) (scale : Q) :
  0 <= a -> 0 < b ->
  (0 <= scale)%Q -> (scale <= inject_Z a / inject_Z b)%Q ->
  0 <= int_of_float (inject_Z b * scale) <= a.
Proof.
  intros Ha Hb H0 Hle. apply int_of_float_bounds.
  - apply Qmult_le_0_compat; [|done]. unfold Qle. simpl. lia.
  - assert (0 < inject_Z b)%Q as Hbq by (unfold Qlt; simpl; lia).
    apply Qle_trans with (inject_Z b * (inject_Z a / inject_Z b))%Q.
    + by apply Qmult_le_l.
    + rewrite Qmult_div_r; [apply Qle_refl|].
      intros Heq. rewrite Heq in Hbq. by apply Qlt_irrefl in Hbq.
Qed.

(** X10: the frame is drawn inside the widget: for a frame and a widget allocation
    of positive size, the scaled size is no larger than the allocation in
    either direction, the offsets are not negative, and the picture ends
    within the widget. *)
Theorem fit_inside_widget (w h width height : Z) :
  0 < w -> 0 < h -> 0 <= width -> 0 <= height ->
  exists new_w new_h x_offset y_offset,
    fit w h width height = Ok (new_w, new_h, x_offset, y_offset) /\
    0 <= new_w <= width /\ 0 <= new_h <= height /\
    0 <= x_offset /\ 0 <= y_offset /\
    x_offset + new_w <= width /\ y_offset + new_h <= height.
Proof.
  intros Hw Hh Hwd Hht. unfold fit, truediv.
  destruct (Z.eqb_spec w 0); [lia|]. destruct (Z.eqb_spec h 0); [lia|].
  cbn [bind].
  set (scale := fmin (inject_Z width / inject_Z w) (inject_Z height / inject_Z h)).
  assert (0 <= scale)%Q as Hs by (apply fmin_nonneg; by apply ratio_nonneg).
  pose proof (scaled_side width w scale Hwd Hw Hs (fmin_le_l _ _)) as Hnw.
  pose proof (scaled_side height h scale Hht Hh Hs (fmin_le_r _ _)) as Hnh.
  do 4 eexists. split; [reflexivity|].
  set (new_w := int_of_float (inject_Z w * scale)) in *.
  set (new_h := int_of_float (inject_Z h * scale)) in *.
  assert (0 <= (width - new_w) / 2 /\ 2 * ((width - new_w) / 2) <= width - new_w)
    by (split; [apply Z.div_pos; lia | apply Z.mul_div_le; lia]).
  assert (0 <= (height - new_h) / 2
          /\ 2 * ((height - new_h) / 2) <= height - new_h)
    by (split; [apply Z.div_pos; lia | apply Z.mul_div_le; lia]).
  lia.
Qed.

Lemma fit_inside_widget_witness :
  exists new_w new_h x_offset y_offset,
    fit 640 480 800 500 = Ok (new_w, new_h, x_offset, y_offset) /\
    0 <= new_w <= 800 /\ 0 <= new_h <= 500 /\
    0 <= x_offset /\ 0 <= y_offset /\
    x_offset + new_w <= 800 /\ y_offset + new_h <= 500.
Proof.
  exact (fit_inside_widget 640 480 800 500 ltac:(lia) ltac:(lia) ltac:(lia)
           ltac:(lia)).
Defined.

End CameraViewFacts.

(** ** The face guide: pressing, dragging, releasing *)

Module Guide.
Import Py Config CameraView.

(** What [config.get(key) * alloc.width] is: a number, or another object
    (a repeated string or list), or [TypeError]. *)
Inductive product : Type :=
| Number (q : Q)
| Object.

Definition times (v : value) (n : Z) : result product :=
  match v with
  | VFloat q => Ok (Number (q * inject_Z n))
  | VInt m => Ok (Number (inject_Z (m * n)))
  | VBool b => Ok (Number (inject_Z ((if b then 1 else 0) * n)))
  | VStr _ | VList _ => Ok Object
  | VNone | VDict _ => Raise TypeError
  end.

(** [(p - centre) / (size / 2)] with the operations in the order Python
    evaluates them. *)
Definition offset (p : Q) (centre size : product) : result Q :=
  match centre with
  | Object => Raise TypeError
  | Number c =>
      match size with
      | Object => Raise TypeError
      | Number s =>
          if Qeq_bool (s / 2) 0 then Raise ZeroDivisionError
          else Ok ((p - c) / (s / 2))%Q
      end
  end.

Definition set_dragging (b : bool) (v : CameraView) : CameraView :=
  {| camera_thread := camera_thread v;
     captured_frame := captured_frame v;
     preview_mode := preview_mode v;
     current_frame := current_frame v;
     cached_pixbuf := cached_pixbuf v;
     last_frame_size := last_frame_size v;
     capture_button := capture_button v;
     save_button := save_button v;
     discard_button := discard_button v;
     guide_toggle := guide_toggle v;
     dragging := b |}.

(** [CameraView.on_button_press] for a widget allocated [width] x [height]
    and a pointer at [(x, y)]. *)
Definition on_button_press (c : Config) (width height : Z) (x y : Q)
  (v : CameraView) : result CameraView :=
  if truthy (get c (lit "guide_enabled")) && negb (preview_mode v) then
    bind (times (get c (lit "guide_x")) width) (fun guide_x =>
    bind (times (get c (lit "guide_y")) height) (fun guide_y =>
    bind (times (get c (lit "guide_width")) width) (fun guide_w =>
    bind (times (get c (lit "guide_height")) height) (fun guide_h =>
    bind (offset x guide_x guide_w) (fun dx =>
    bind (offset y guide_y guide_h) (fun dy =>
    if Qle_bool (dx * dx + dy * dy) 1
    then Ok (set_dragging true v)
    else Ok v))))))
  else Ok v.

(** [event.x / alloc.width] *)
Definition over (p : Q) (n : Z) : result Q :=
  if n =? 0 then Raise ZeroDivisionError else Ok (p / inject_Z n)%Q.

(** [CameraView.on_motion]: the store afterwards, and whether the handler
    raised. *)
Definition on_motion (w : world) (width height : Z) (x y : Q)
  (v : CameraView) : world * result unit :=
  if dragging v then
    match over x width with
    | Raise e => (w, Raise e)
    | Ok nx =>
        let w1 := set (lit "guide_x") (VFloat nx) w in
        match over y height with
        | Raise e => (w1, Raise e)
        | Ok ny => (set (lit "guide_y") (VFloat ny) w1, Ok tt)
        end
    end
  else (w, Ok tt).

(** [CameraView.on_button_release] *)
Definition on_button_release (v : CameraView) : CameraView :=
  set_dragging false v.

(** [CameraView.on_guide_toggled] *)
Definition on_guide_toggled (active : bool) (w : world) : world :=
  set (lit "guide_enabled") (VBool active) w.

(** *** Properties *)

Lemma offset_at_centre (p c s : Q) :
  ~ (s == 0)%Q ->
  (p == c)%Q ->
  exists d, offset p (Number c) (Number s) = Ok d /\ (d == 0)%Q.
Proof.
  intros Hs Hp. unfold offset.
  destruct (Qeq_bool (s / 2) 0) eqn:Hz.
  - apply Qeq_bool_iff in Hz. exfalso. apply Hs.
    rewrite <- (Qmult_div_r s 2) by discriminate.
    rewrite Hz. ring.
  - eexists. split; [reflexivity|]. unfold Qdiv. rewrite Hp. ring.
Qed.

Lemma offset_far (p c s : Q) :
  ~ (s == 0)%Q ->
  ((s / 2) * (s / 2) < (p - c) * (p - c))%Q ->
  exists d, offset p (Number c) (Number s) = Ok d /\ (1 < d * d)%Q.
Proof.
  intros Hs Hfar. unfold offset.
  destruct (Qeq_bool (s / 2) 0) eqn:Hz.
  - apply Qeq_bool_iff in Hz. exfalso. apply Hs.
    rewrite <- (Qmult_div_r s 2) by discriminate.
    rewrite Hz. ring.
  - eexists. split; [reflexivity|].
    assert (~ (s / 2 == 0)%Q) as Hh.
    { intros Heq. apply Qeq_bool_iff in Heq. congruence. }
    set (r := (s / 2)%Q) in *. set (n := (p - c)%Q) in *.
    assert (0 < r * r)%Q as Hrr.
    { destruct (Q_dec r 0) as [[Hlt|Hgt]|Heq]; [| |done].
      - assert (r * r == (- r) * (- r))%Q as -> by ring.
        apply Qmult_lt_0_compat; apply (Qopp_lt_compat r 0) in Hlt; exact Hlt.
      - by apply Qmult_lt_0_compat. }
    assert (n / r * (n / r) == (n * n) / (r * r))%Q as ->.
    { unfold Qdiv. rewrite Qinv_mult_distr. ring. }
    apply Qlt_shift_div_l; [done|]. by rewrite Qmult_1_l.
Qed.

Lemma offset_defined (p c s : Q) :
  ~ (s == 0)%Q -> exists d, offset p (Number c) (Number s) = Ok d.
Proof.
  intros Hs. unfold offset.
  destruct (Qeq_bool (s / 2) 0) eqn:Hz; [|eauto].
  apply Qeq_bool_iff in Hz. exfalso. apply Hs.
  rewrite <- (Qmult_div_r s 2) by discriminate.
  rewrite Hz. ring.
Qed.

Lemma square_nonneg (d : Q) : (0 <= d * d)%Q.
Proof. destruct d as [a b]. unfold Qle. simpl. nia. Qed.

(** X11: the hit test.  With the guide shown in the live view and of a size that
    is not zero, a press on the centre of the guide starts a drag; a press
    that is farther from the centre than half the guide's width to the side,
    or than half its height up or down, changes nothing. *)
Theorem press_hits_guide (c : Config) (width height : Z)
  (gx gy gw gh : Q) (v : CameraView) :
  truthy (get c (lit "guide_enabled")) = true ->
  preview_mode v = false ->
  get c (lit "guide_x") = VFloat gx ->
  get c (lit "guide_y") = VFloat gy ->
  get c (lit "guide_width") = VFloat gw ->
  get c (lit "guide_height") = VFloat gh ->
  ~ (gw * inject_Z width == 0)%Q ->
  ~ (gh * inject_Z height == 0)%Q ->
  (forall x y,
     (x == gx * inject_Z width)%Q -> (y == gy * inject_Z height)%Q ->
     on_button_press c width height x y v = Ok (set_dragging true v)) /\
  (forall x y,
     ((gw * inject_Z width / 2) * (gw * inject_Z width / 2)
      < (x - gx * inject_Z width) * (x - gx * inject_Z width))%Q ->
     on_button_press c width height x y v = Ok v) /\
  (forall x y,
     ((gh * inject_Z height / 2) * (gh * inject_Z height / 2)
      < (y - gy * inject_Z height) * (y - gy * inject_Z height))%Q ->
     on_button_press c width height x y v = Ok v).
Proof.
  intros He Hp Hx Hy Hw Hh Hw0 Hh0.
  assert (forall x y,
    on_button_press c width height x y v =
      bind (offset x (Number (gx * inject_Z width))
              (Number (gw * inject_Z width))) (fun dx =>
      bind (offset y (Number (gy * inject_Z height))
              (Number (gh * inject_Z height))) (fun dy =>
      if Qle_bool (dx * dx + dy * dy) 1
      then Ok (set_dragging true v) else Ok v))) as Hpress.
  { intros x y. unfold on_button_press. by rewrite He, Hp, Hx, Hy, Hw, Hh. }
  repeat split; intros x y.
  - intros Hxc Hyc. rewrite Hpress.
    destruct (offset_at_centre x _ _ Hw0 Hxc) as (dx & -> & Hdx).
    destruct (offset_at_centre y _ _ Hh0 Hyc) as (dy & -> & Hdy).
    cbn [bind].
    assert (Qle_bool (dx * dx + dy * dy) 1 = true) as ->; [|done].
    apply Qle_bool_iff. rewrite Hdx, Hdy. by vm_compute.
  - intros Hfar. rewrite Hpress.
    destruct (offset_far x _ _ Hw0 Hfar) as (dx & -> & Hdx).
    destruct (offset_defined y (gy * inject_Z height) _ Hh0) as (dy & ->).
    cbn [bind].
    destruct (Qle_bool (dx * dx + dy * dy) 1) eqn:Hin; [|done].
    apply Qle_bool_iff in Hin. exfalso.
    pose proof (square_nonneg dy) as Hsq.
    apply (Qlt_irrefl 1). eapply Qlt_le_trans; [exact Hdx|].
    eapply Qle_trans; [|exact Hin].
    rewrite <- (Qplus_0_r (dx * dx)) at 1.
    by apply Qplus_le_r.
  - intros Hfar. rewrite Hpress.
    destruct (offset_defined x (gx * inject_Z width) _ Hw0) as (dx & ->).
    destruct (offset_far y _ _ Hh0 Hfar) as (dy & -> & Hdy).
    cbn [bind].
    destruct (Qle_bool (dx * dx + dy * dy) 1) eqn:Hin; [|done].
    apply Qle_bool_iff in Hin. exfalso.
    pose proof (square_nonneg dx) as Hsq.
    apply (Qlt_irrefl 1). eapply Qlt_le_trans; [exact Hdy|].
    eapply Qle_trans; [|exact Hin].
    rewrite <- (Qplus_0_l (dy * dy)) at 1.
    by apply Qplus_le_l.
Qed.

Lemma press_hits_guide_witness :
  on_button_press (Config.init home_pictures Missing) 640 480 320 240
    CameraView.init
  = Ok (set_dragging true CameraView.init).
Proof.
  refine (proj1 (press_hits_guide (Config.init home_pictures Missing) 640 480
                   (1 # 2) (1 # 2) (3 # 10) (2 # 5) CameraView.init
                   _ _ _ _ _ _ _ _) 320 240 _ _)%Q;
    try (vm_compute; reflexivity);
    intros H; vm_compute in H; discriminate.
Defined.

Lemma set_marks_pending (key : str) (v : value) (w : world) :
  _save_pending (cfg (set key v w)) = true.
Proof. unfold set, save. simpl. by destruct (_save_pending (cfg w)) eqn:H. Qed.

Lemma get_after_set (key key' : str) (v : value) (w : world) :
  get (cfg (set key v w)) key' =
    if decide (key = key') then v else get (cfg w) key'.
Proof.
  unfold get. rewrite ConfigFacts.set_data. case_decide as Hk.
  - subst. by rewrite lookup_insert_eq.
  - by rewrite lookup_insert_ne.
Qed.

Ltac lit_neq := let H := fresh in intros H; vm_compute in H; discriminate.

(** X12: a guide that is dragged is dropped under the pointer: a motion while
    dragging stores the pointer's position, marks a save as pending, and
    after the release a press at the same place picks the guide up again. *)
Theorem dropped_guide_under_pointer (w : world) (width height : Z) (x y : Q)
  (gw gh : Q) (v : CameraView) :
  dragging v = true ->
  preview_mode v = false ->
  width <> 0 -> height <> 0 ->
  truthy (get (cfg w) (lit "guide_enabled")) = true ->
  get (cfg w) (lit "guide_width") = VFloat gw ->
  get (cfg w) (lit "guide_height") = VFloat gh ->
  ~ (gw * inject_Z width == 0)%Q ->
  ~ (gh * inject_Z height == 0)%Q ->
  exists w',
    on_motion w width height x y v = (w', Ok tt) /\
    get (cfg w') (lit "guide_x") = VFloat (x / inject_Z width) /\
    get (cfg w') (lit "guide_y") = VFloat (y / inject_Z height) /\
    _save_pending (cfg w') = true /\
    on_button_press (cfg w') width height x y (on_button_release v)
      = Ok (set_dragging true (on_button_release v)).
Proof.
  intros Hd Hp Hw0 Hh0 He Hgw Hgh Hgw0 Hgh0.
  unfold on_motion, over. rewrite Hd.
  destruct (Z.eqb_spec width 0); [done|].
  destruct (Z.eqb_spec height 0); [done|].
  eexists. split; [reflexivity|].
  set (w' := set (lit "guide_y") (VFloat (y / inject_Z height))
               (set (lit "guide_x") (VFloat (x / inject_Z width)) w)).
  assert (get (cfg w') (lit "guide_x") = VFloat (x / inject_Z width)) as Hx.
  { unfold w'. rewrite !get_after_set.
    rewrite decide_False by lit_neq. by rewrite decide_True. }
  assert (get (cfg w') (lit "guide_y") = VFloat (y / inject_Z height)) as Hy.
  { unfold w'. rewrite get_after_set. by rewrite decide_True. }
  assert (forall key, key <> lit "guide_x" -> key <> lit "guide_y" ->
            get (cfg w') key = get (cfg w) key) as Hother.
  { intros key H1 H2. unfold w'. rewrite !get_after_set.
    by rewrite !decide_False. }
  split; [done|]. split; [done|]. split; [apply set_marks_pending|].
  apply (proj1 (press_hits_guide (cfg w') width height
                  (x / inject_Z width) (y / inject_Z height) gw gh
                  (on_button_release v)
                  ltac:(rewrite Hother by lit_neq; exact He)
                  Hp Hx Hy
                  ltac:(rewrite Hother by lit_neq; exact Hgw)
                  ltac:(rewrite Hother by lit_neq; exact Hgh)
                  Hgw0 Hgh0)).
  - unfold Qdiv. rewrite <- Qmult_assoc, (Qmult_comm (/ _)), Qmult_inv_r.
    + by rewrite Qmult_1_r.
    + unfold Qeq. simpl. lia.
  - unfold Qdiv. rewrite <- Qmult_assoc, (Qmult_comm (/ _)), Qmult_inv_r.
    + by rewrite Qmult_1_r.
    + unfold Qeq. simpl. lia.
Qed.

(** The default store with a drag going on in a widget of 640 x 480. *)
Lemma dropped_guide_under_pointer_witness :
  exists w',
    on_motion (boot home_pictures Missing) 640 480 100 200
      (set_dragging true CameraView.init) = (w', Ok tt) /\
    get (cfg w') (lit "guide_x") = VFloat (100 / inject_Z 640) /\
    get (cfg w') (lit "guide_y") = VFloat (200 / inject_Z 480) /\
    _save_pending (cfg w') = true /\
    on_button_press (cfg w') 640 480 100 200
      (on_button_release (set_dragging true CameraView.init))
      = Ok (set_dragging true
              (on_button_release (set_dragging true CameraView.init))).
Proof.
  refine (dropped_guide_under_pointer (boot home_pictures Missing) 640 480
            100 200 (3 # 10) (2 # 5) (set_dragging true CameraView.init)
            _ _ _ _ _ _ _ _ _);
    try (vm_compute; reflexivity); try discriminate;
    intros H; vm_compute in H; discriminate.
Defined.

End Guide.

(** ** More on the timelapse view *)

Module TimelapseFacts.
Import Py Os TimelapseView.

(** The order [sorted] puts names in. *)
Definition precedes (a b : str) : Prop := str_le a b = true.

(** *** Properties *)

Lemma str_le_refl (a : str) : str_le a a = true.
Proof.
  induction a as [|x a IH]; [done|]. simpl. by rewrite N.ltb_irrefl.
Qed.

Lemma str_le_antisym (a b : str) :
  str_le a b = true -> str_le b a = true -> a = b.
Proof.
  revert b. induction a as [|x a IH]; intros [|y b]; simpl; try done.
  destruct (N.ltb_spec x y), (N.ltb_spec y x); try done; try lia.
  intros H1 H2. f_equal; [lia | by apply IH].
Qed.

Lemma str_le_trans (a b c : str) :
  str_le a b = true -> str_le b c = true -> str_le a c = true.
Proof.
  revert b c. induction a as [|x a IH]; intros [|y b] [|z c]; simpl; try done.
  destruct (N.ltb_spec x y), (N.ltb_spec y z), (N.ltb_spec x z),
    (N.ltb_spec y x), (N.ltb_spec z y), (N.ltb_spec z x);
    try done; try lia.
  apply IH.
Qed.

#[local] Instance precedes_trans : Transitive precedes.
Proof. intros a b c. apply str_le_trans. Qed.

#[local] Instance precedes_antisym : AntiSymm (=) precedes.
Proof. intros a b. apply str_le_antisym. Qed.

Lemma insert_sorted_perm (x : str) (l : list str) :
  insert_sorted x l ≡ₚ x :: l.
Proof.
  induction l as [|y l IH]; [done|]. simpl.
  destruct (str_le x y); [done|]. rewrite IH. apply perm_swap.
Qed.

Lemma sorted_perm (l : list str) : sorted l ≡ₚ l.
Proof.
  induction l as [|x l IH]; [done|]. simpl.
  by rewrite insert_sorted_perm, IH.
Qed.

Lemma filter_perm (f : str -> bool) (l1 l2 : list str) :
  l1 ≡ₚ l2 -> List.filter f l1 ≡ₚ List.filter f l2.
Proof.
  induction 1 as [|x l1 l2 _ IH|x y l|l1 l2 l3 _ IH1 _ IH2]; simpl.
  - done.
  - destruct (f x); by rewrite IH.
  - destruct (f x), (f y); try done. apply perm_swap.
  - by rewrite IH1.
Qed.

Lemma sorted_of_perm (l1 l2 : list str) : l1 ≡ₚ l2 -> sorted l1 = sorted l2.
Proof.
  intros Hp. apply (Sorted_unique precedes).
  - apply sorted_Sorted.
  - apply sorted_Sorted.
  - by rewrite !sorted_perm.
Qed.

(** X13: the photos of a timelapse do not depend on the order in which the
    system lists the directory: [on_create] hands the thread the photos in
    ascending order of their names, each as often as it is listed, and any
    other order of the listing gives the same list. *)
Theorem photos_order_independent (names1 names2 : list str) :
  names1 ≡ₚ names2 ->
  sorted (List.filter is_photo names1) = sorted (List.filter is_photo names2) /\
  Sorted precedes (sorted (List.filter is_photo names1)) /\
  sorted (List.filter is_photo names1) ≡ₚ List.filter is_photo names1.
Proof.
  intros Hp. split; [by apply sorted_of_perm, filter_perm|].
  split; [apply sorted_Sorted | apply sorted_perm].
Qed.

Lemma photos_order_independent_witness :
  sorted (List.filter is_photo
            [lit "2024-01-02_08-00-00.jpg"; lit "notes.txt";
             lit "2024-01-01_08-00-00.jpg"])
  = sorted (List.filter is_photo
              [lit "2024-01-01_08-00-00.jpg"; lit "2024-01-02_08-00-00.jpg";
               lit "notes.txt"]).
Proof.
  assert ([lit "2024-01-02_08-00-00.jpg"; lit "notes.txt";
           lit "2024-01-01_08-00-00.jpg"]
          ≡ₚ [lit "2024-01-01_08-00-00.jpg"; lit "2024-01-02_08-00-00.jpg";
              lit "notes.txt"]) as H.
  { etrans; [apply perm_skip, perm_swap | apply perm_swap]. }
  exact (proj1 (photos_order_independent _ _ H)).
Defined.

Lemma basename_from_no_slash (acc name : str) :
  existsb (N.eqb slash) name = false -> basename_from acc name = acc ++ name.
Proof.
  revert acc. induction name as [|c name IH]; intros acc Hn;
    cbn [basename_from].
  - by rewrite app_nil_r.
  - cbn [existsb] in Hn. apply orb_false_elim in Hn as [Hc Hn].
    rewrite N.eqb_sym, Hc. rewrite IH by done. by rewrite <- app_assoc.
Qed.

Lemma basename_from_after_slash (acc p name : str) :
  basename_from acc (p ++ slash :: name) = basename_from [] name.
Proof.
  revert acc. induction p as [|c p IH]; intros acc.
  - cbn [app basename_from]. by rewrite N.eqb_refl.
  - cbn [app basename_from]. destruct (c =? slash)%N; apply IH.
Qed.

Lemma endswith_split (s suffix : str) :
  endswith s suffix = true -> exists p, s = p ++ suffix.
Proof.
  unfold endswith. intros H. apply bool_decide_eq_true in H.
  exists (take (length s - length suffix) s).
  transitivity (take (length s - length suffix) s
                ++ drop (length s - length suffix) s);
    [by rewrite take_drop | by rewrite H].
Qed.

Lemma basename_join (d name : str) :
  existsb (N.eqb slash) name = false -> basename (join d name) = name.
Proof.
  intros Hn. unfold basename, join.
  assert (startswith name [slash] = false) as ->.
  { destruct name as [|c name']; [done|].
    cbn [existsb] in Hn. apply orb_false_elim in Hn as [Hc _].
    cbn [startswith]. by rewrite Hc. }
  destruct d as [|a d'].
  - by rewrite basename_from_no_slash.
  - destruct (endswith (a :: d') [slash]) eqn:He.
    + apply endswith_split in He as [p ->].
      replace ((p ++ [slash]) ++ name) with (p ++ slash :: name)
        by (by rewrite <- app_assoc).
      rewrite basename_from_after_slash. by rewrite basename_from_no_slash.
    + replace ((a :: d') ++ [slash] ++ name) with ((a :: d') ++ slash :: name)
        by done.
      rewrite basename_from_after_slash. by rewrite basename_from_no_slash.
Qed.

(** X14: when a timelapse is done, the label names the video file alone, without
    the directory, whatever the photos directory is. *)
Theorem completion_names_video (d stamp : str) (v : TimelapseView) :
  existsb (N.eqb slash) stamp = false ->
  status_label
    (call (on_timelapse_complete_with
             (join d (lit "timelapse_" ++ stamp ++ lit ".mp4"))) v)
  = lit "Timelapse created: " ++ lit "timelapse_" ++ stamp ++ lit ".mp4" /\
  create_button
    (call (on_timelapse_complete_with
             (join d (lit "timelapse_" ++ stamp ++ lit ".mp4"))) v) = true.
Proof.
  intros Hs. split; [|done]. cbn [call on_timelapse_complete status_label].
  rewrite basename_join; [done|].
  rewrite !existsb_app, Hs. by vm_compute.
Qed.

Lemma completion_names_video_witness :
  status_label
    (call (on_timelapse_complete_with
             (join photos_home (lit "timelapse_" ++ lit "20240102_080000"
                                ++ lit ".mp4"))) fresh_view)
  = lit "Timelapse created: " ++ lit "timelapse_" ++ lit "20240102_080000"
    ++ lit ".mp4".
Proof.
  exact (proj1 (completion_names_video photos_home (lit "20240102_080000")
                  fresh_view eq_refl)).
Defined.

End TimelapseFacts.

(** ** Counting, saving and finding photos *)

Module Photos.
Import Py Os CameraThread TimelapseView.

(** [f"{count}"] for a count. *)
Definition str_of_nat (n : nat) : str :=
  lit (NilEmpty.string_of_uint (Nat.to_uint n)).

Section System.

(** Which file descriptors are open belongs to the process, not to the file
    system; what an encoded image looks like is the codec's. *)
Variable open_fd : Z -> bool.
Variable imencode : Frame -> str.

(** [os.path.exists(v)]: [False] where [os.stat] fails, [TypeError] for an
    object that is no path. *)
Definition exists_value (f : filesystem) (v : value) : result bool :=
  match v with
  | VStr d =>
      Ok (bool_decide (d ∈ dirs f) || bool_decide (is_Some (files f !! d)))
  | VInt n => Ok (open_fd n)
  | VBool b => Ok (open_fd (if b then 1 else 0))
  | VNone | VFloat _ | VList _ | VDict _ => Raise TypeError
  end.

Definition set_count (w : world) (label : str) (sensitive : bool) : world :=
  {| config := config w;
     fs := fs w;
     view := {| count_label := label;
                duration_adj := duration_adj (view w);
                create_button := sensitive;
                status_label := status_label (view w);
                progress := progress (view w) |};
     threads := threads w |}.

(** [TimelapseView.update_photo_count] *)
Definition update_photo_count (w : world) : result world :=
  let photos_dir := default VNone (config w !! lit "photos_directory") in
  bind (exists_value (fs w) photos_dir) (fun found =>
  if found then
    bind (listdir_value (fs w) photos_dir) (fun names =>
    let count := length (List.filter is_photo names) in
    Ok (set_count w
          (lit "Found " ++ str_of_nat count ++ lit " photo(s) in directory")
          (0 <? count)%nat))
  else Ok (set_count w (lit "No photos directory found") false)).

(** [cv2.imwrite(filename, frame)] into the directory [d], for a frame that
    holds pixels (as every frame a successful read delivers does): the file
    is written when the directory is there, and nothing is raised when it is
    not. *)
Definition imwrite (f : filesystem) (d filename : str) (frame : Frame)
  : filesystem :=
  if bool_decide (d ∈ dirs f)
  then {| dirs := dirs f; files := <[filename := imencode frame]> (files f) |}
  else f.

(** The [save_photo] of [MainWindow.on_photo_taken], run in its thread;
    [today] is [datetime.now().strftime('%Y-%m-%d_%H-%M-%S')].  It returns
    the file name handed to [show_photo_saved_dialog]. *)
Definition save_photo (today : str) (frame : Frame) (w : world)
  : result (world * str) :=
  let photos_dir := default VNone (config w !! lit "photos_directory") in
  bind (fspath photos_dir) (fun d =>
  let filename := join d (today ++ lit ".jpg") in
  Ok ({| config := config w;
         fs := imwrite (fs w) d filename frame;
         view := view w;
         threads := threads w |}, filename)).

(** [MainWindow.show_photo_saved_dialog], after the dialog is closed. *)
Definition show_photo_saved_dialog (w : world) : result world :=
  update_photo_count w.

(** [MainWindow.check_today_photo]; [today] is
    [datetime.now().strftime('%Y-%m-%d')].  It returns the photo the dialog
    names, when there is a dialog. *)
Definition check_today_photo (today : str) (w : world)
  : result (option str) :=
  let photos_dir := default VNone (config w !! lit "photos_directory") in
  bind (exists_value (fs w) photos_dir) (fun found =>
  if found then
    bind (listdir_value (fs w) photos_dir) (fun names =>
    Ok (head (List.filter (fun f => startswith f today) names)))
  else Ok None).

End System.

(** A process with the three standard descriptors open, and a stand-in for
    the encoded image. *)
Definition standard_fds (n : Z) : bool := (0 <=? n) && (n <=? 2).

Definition raw_bytes (frame : Frame) : str :=
  List.map Z.to_N (data frame).

(** A photos directory that exists and is empty. *)
Definition empty_home : world :=
  {| config := {[ lit "photos_directory" := VStr photos_home ]};
     fs := {| dirs := {[ photos_home ]}; files := ∅ |};
     view := fresh_view;
     threads := [] |}.

(** *** Properties *)

Lemma startswith_app (p r : str) : startswith (p ++ r) p = true.
Proof.
  induction p as [|c p IH]; [by destruct r|].
  cbn [app startswith]. by rewrite N.eqb_refl.
Qed.

Lemma endswith_app (s suffix : str) : endswith (s ++ suffix) suffix = true.
Proof.
  unfold endswith. apply bool_decide_eq_true.
  rewrite length_app.
  replace (length s + length suffix - length suffix)%nat with (length s) by lia.
  by rewrite drop_app_length.
Qed.

Lemma join_as_prefix (d n : str) :
  startswith n [slash] = false -> join d n = join d [] ++ n.
Proof.
  intros Hn. unfold join. rewrite Hn. cbn [startswith].
  destruct d as [|a d']; [done|].
  destruct (endswith (a :: d') [slash]).
  - by rewrite app_nil_r.
  - by rewrite <- !app_assoc.
Qed.

Lemma no_slash_start (n : str) :
  existsb (N.eqb slash) n = false -> startswith n [slash] = false.
Proof.
  destruct n as [|c n]; [done|]. cbn [existsb startswith].
  intros H. apply orb_false_elim in H as [Hc _]. by rewrite Hc.
Qed.

Lemma name_in_join (d n : str) :
  n <> [] -> existsb (N.eqb slash) n = false ->
  name_in (join d []) (join d n) = Some n.
Proof.
  intros Hne Hn. rewrite (join_as_prefix d n) by (by apply no_slash_start).
  unfold name_in. rewrite startswith_app, drop_app_length.
  rewrite bool_decide_eq_true_2 by done. by rewrite Hn.
Qed.

Lemma listed (f : filesystem) (d n text : str) :
  d ∈ dirs f ->
  n <> [] -> existsb (N.eqb slash) n = false ->
  files f !! join d n = Some text ->
  exists names, listdir f d = Ok names /\ n ∈ names.
Proof.
  intros Hd Hne Hn Hfile. unfold listdir.
  rewrite bool_decide_eq_true_2 by done. eexists. split; [reflexivity|].
  apply list_elem_of_omap. exists (join d n). split; [|by apply name_in_join].
  apply elem_of_app. left. apply list_elem_of_In, in_map_iff.
  exists (join d n, text). split; [done|].
  apply list_elem_of_In. by apply elem_of_map_to_list.
Qed.

Lemma in_sorted_photos (n : str) (names : list str) :
  n ∈ names -> is_photo n = true ->
  n ∈ sorted (List.filter is_photo names).
Proof.
  intros Hin Hp. rewrite TimelapseFacts.sorted_perm.
  apply list_elem_of_In, filter_In. split; [by apply list_elem_of_In | done].
Qed.

Lemma photo_name (today : str) : is_photo (today ++ lit ".jpg") = true.
Proof.
  unfold is_photo, endswith_any. cbn [existsb]. by rewrite endswith_app.
Qed.

(** X15: the count decides what Create Timelapse will do.  After
    [update_photo_count] the button can be clicked exactly when [on_create]
    would start a thread: with the button enabled a click starts one thread
    on a list of photos that is not empty, and with the button disabled a
    click, could it be made, would start none. *)
Theorem count_predicts_create (open_fd : Z -> bool) (w w' : world) :
  update_photo_count open_fd w = Ok w' ->
  (create_button (view w') = true ->
   exists w'' photos,
     on_create w' = Ok w'' /\ photos <> [] /\
     threads w'' =
       threads w' ++
       [(default VNone (config w' !! lit "photos_directory"), photos,
         duration_adj (view w'))]) /\
  (create_button (view w') = false ->
   forall w'', on_create w' = Ok w'' -> threads w'' = threads w').
Proof.
  unfold update_photo_count.
  destruct (exists_value open_fd (fs w)
              (default VNone (config w !! lit "photos_directory")))
    as [[]|] eqn:Hex; cbn [bind]; [| |done].
  - destruct (listdir_value (fs w)
                (default VNone (config w !! lit "photos_directory")))
      as [names|] eqn:Hls; cbn [bind]; [|done].
    intros [= <-]. unfold on_create. cbn [set_count config fs view]. rewrite Hls.
    cbn [bind]. rewrite sorted_length.
    cbn [create_button duration_adj threads].
    destruct (List.filter is_photo names) as [|p ps] eqn:Hf.
    + split; [done|]. intros _ w''. cbn [length Nat.eqb]. by intros [= <-].
    + split; [|done]. intros _. do 2 eexists. cbn [length Nat.eqb].
      split; [reflexivity|]. split; [|reflexivity].
      intros Hnil. apply (f_equal length) in Hnil.
      rewrite sorted_length in Hnil. done.
  - intros [= <-]. split; [done|]. intros _ w''.
    unfold on_create. cbn [set_count config fs view].
    destruct (listdir_value (fs w)
                (default VNone (config w !! lit "photos_directory")))
      as [names|] eqn:Hls; cbn [bind]; [|done].
    destruct (length (sorted (List.filter is_photo names)) =? 0)%nat eqn:Hl;
      [by intros [= <-]|].
    exfalso. destruct (default VNone (config w !! lit "photos_directory"));
      try done; simpl in Hex, Hls.
    + unfold listdir in Hls. injection Hex as Hex.
      apply orb_false_elim in Hex as [Hd _]. by rewrite Hd in Hls.
Qed.

Lemma count_predicts_create_witness :
  create_button (view (set_count no_photos
     (lit "Found " ++ str_of_nat 0 ++ lit " photo(s) in directory") false))
    = false /\
  forall w'',
    on_create (set_count no_photos
      (lit "Found " ++ str_of_nat 0 ++ lit " photo(s) in directory") false)
      = Ok w'' ->
    threads w'' = [].
Proof.
  assert (update_photo_count standard_fds no_photos =
            Ok (set_count no_photos
                  (lit "Found " ++ str_of_nat 0 ++ lit " photo(s) in directory")
                  false)) as H by (vm_compute; reflexivity).
  split; [reflexivity|].
  exact (proj2 (count_predicts_create standard_fds no_photos _ H) eq_refl).
Defined.

Lemma no_slash_app (a b : str) :
  existsb (N.eqb slash) a = false -> existsb (N.eqb slash) b = false ->
  existsb (N.eqb slash) (a ++ b) = false.
Proof. intros Ha Hb. by rewrite existsb_app, Ha, Hb. Qed.

Lemma saved_photo_listed (imencode : Frame -> str) (today d : str)
  (frame : Frame) (w : world) :
  config w !! lit "photos_directory" = Some (VStr d) ->
  d ∈ dirs (fs w) ->
  existsb (N.eqb slash) today = false ->
  exists w1 names,
    save_photo imencode today frame w
      = Ok (w1, join d (today ++ lit ".jpg")) /\
    config w1 = config w /\ threads w1 = threads w /\ view w1 = view w /\
    d ∈ dirs (fs w1) /\
    listdir (fs w1) d = Ok names /\ (today ++ lit ".jpg") ∈ names.
Proof.
  intros Hc Hd Ht.
  set (f1 := imwrite imencode (fs w) d (join d (today ++ lit ".jpg")) frame).
  assert (f1 = {| dirs := dirs (fs w);
                  files := <[join d (today ++ lit ".jpg") := imencode frame]>
                             (files (fs w)) |}) as Hf1.
  { unfold f1, imwrite. by rewrite bool_decide_eq_true_2. }
  destruct (listed f1 d (today ++ lit ".jpg") (imencode frame))
    as (names & Hls & Hin).
  - by rewrite Hf1.
  - by destruct today.
  - by apply no_slash_app.
  - rewrite Hf1. cbn [files]. by rewrite lookup_insert_eq.
  - exists {| config := config w; fs := f1; view := view w;
              threads := threads w |}, names.
    unfold save_photo. rewrite Hc. cbn [default fspath bind].
    repeat split; try done. cbn [fs]. by rewrite Hf1.
Qed.

(** X16: a photo that was saved is part of the next timelapse.  With a photos
    directory that exists, [save_photo] writes [<today>.jpg] into it, the
    count that follows enables Create Timelapse, and a click on it starts a
    thread whose photos include the new one. *)
Theorem saved_photo_joins_timelapse (open_fd : Z -> bool)
  (imencode : Frame -> str) (today d : str) (frame : Frame) (w : world) :
  config w !! lit "photos_directory" = Some (VStr d) ->
  d ∈ dirs (fs w) ->
  existsb (N.eqb slash) today = false ->
  exists w1 w2 w3 photos,
    save_photo imencode today frame w
      = Ok (w1, join d (today ++ lit ".jpg")) /\
    show_photo_saved_dialog open_fd w1 = Ok w2 /\
    create_button (view w2) = true /\
    on_create w2 = Ok w3 /\
    threads w3 = threads w ++ [(VStr d, photos, duration_adj (view w))] /\
    (today ++ lit ".jpg") ∈ photos.
Proof.
  intros Hc Hd Ht.
  destruct (saved_photo_listed imencode today d frame w Hc Hd Ht)
    as (w1 & names & Hsave & Hc1 & Ht1 & Hv1 & Hd1 & Hls & Hin).
  pose proof (in_sorted_photos _ _ Hin (photo_name today)) as Hph.
  assert (exists p ps, List.filter is_photo names = p :: ps) as (p & ps & Hf).
  { destruct (List.filter is_photo names) eqn:Hf; [|eauto].
    simpl in Hph. by apply elem_of_nil in Hph. }
  assert (update_photo_count open_fd w1 =
            Ok (set_count w1
                  (lit "Found " ++ str_of_nat (length (p :: ps))
                   ++ lit " photo(s) in directory") true)) as Hup.
  { unfold update_photo_count. rewrite Hc1, Hc. cbn [from_option id exists_value].
    rewrite (bool_decide_eq_true_2 _ Hd1). cbn [orb bind listdir_value].
    rewrite Hls. cbn [bind]. by rewrite Hf. }
  exists w1, (set_count w1
                (lit "Found " ++ str_of_nat (length (p :: ps))
                 ++ lit " photo(s) in directory") true).
  do 2 eexists. split; [exact Hsave|]. split; [exact Hup|].
  split; [done|]. unfold on_create. cbn [set_count config fs view].
  rewrite Hc1, Hc. cbn [from_option id listdir_value]. rewrite Hls. cbn [bind].
  rewrite sorted_length, Hf. cbn [length Nat.eqb threads duration_adj].
  split; [reflexivity|]. cbn [threads set_count]. rewrite Ht1, Hv1.
  split; [reflexivity|]. by rewrite <- Hf.
Qed.

(** A frame of one pixel saved into the empty directory. *)
Lemma saved_photo_joins_timelapse_witness :
  exists w1 w2 w3 photos,
    save_photo raw_bytes (lit "2024-01-02_08-00-00") (pixel_frame 10 20 30)
      empty_home
      = Ok (w1, join photos_home (lit "2024-01-02_08-00-00" ++ lit ".jpg")) /\
    show_photo_saved_dialog standard_fds w1 = Ok w2 /\
    create_button (view w2) = true /\
    on_create w2 = Ok w3 /\
    threads w3 =
      threads empty_home
      ++ [(VStr photos_home, photos, duration_adj (view empty_home))] /\
    (lit "2024-01-02_08-00-00" ++ lit ".jpg") ∈ photos.
Proof.
  refine (saved_photo_joins_timelapse standard_fds raw_bytes
            (lit "2024-01-02_08-00-00") photos_home (pixel_frame 10 20 30)
            empty_home _ _ _).
  - vm_compute. reflexivity.
  - vm_compute. reflexivity.
  - vm_compute. reflexivity.
Defined.

(** X17: a photo saved today is found when the application starts again the same
    day: the name [save_photo] gives the file begins with the date, so
    [check_today_photo] has a file to name in its dialog. *)
Theorem todays_photo_is_found (open_fd : Z -> bool) (imencode : Frame -> str)
  (day time d : str) (frame : Frame) (w : world) :
  config w !! lit "photos_directory" = Some (VStr d) ->
  d ∈ dirs (fs w) ->
  existsb (N.eqb slash) (day ++ lit "_" ++ time) = false ->
  exists w1 filename found,
    save_photo imencode (day ++ lit "_" ++ time) frame w = Ok (w1, filename) /\
    check_today_photo open_fd day w1 = Ok (Some found) /\
    startswith found day = true.
Proof.
  intros Hc Hd Ht.
  destruct (saved_photo_listed imencode _ d frame w Hc Hd Ht)
    as (w1 & names & Hsave & Hc1 & _ & _ & Hd1 & Hls & Hin).
  assert ((day ++ lit "_" ++ time) ++ lit ".jpg"
          ∈ List.filter (fun f => startswith f day) names) as Hfound.
  { apply list_elem_of_In, filter_In. split; [by apply list_elem_of_In|].
    rewrite <- app_assoc. apply startswith_app. }
  destruct (List.filter (fun f => startswith f day) names)
    as [|found rest] eqn:Hf; [by apply elem_of_nil in Hfound|].
  exists w1, (join d ((day ++ lit "_" ++ time) ++ lit ".jpg")), found.
  split; [exact Hsave|]. split.
  - unfold check_today_photo. rewrite Hc1, Hc. cbn [from_option id exists_value].
    rewrite (bool_decide_eq_true_2 _ Hd1). cbn [orb bind listdir_value].
    rewrite Hls. cbn [bind]. by rewrite Hf.
  - assert (In found (List.filter (fun f => startswith f day) names)) as Hi
      by (rewrite Hf; by left).
    by apply filter_In in Hi as [_ Hi].
Qed.

Lemma todays_photo_is_found_witness :
  exists w1 filename found,
    save_photo raw_bytes (lit "2024-01-02" ++ lit "_" ++ lit "08-00-00")
      (pixel_frame 10 20 30) empty_home = Ok (w1, filename) /\
    check_today_photo standard_fds (lit "2024-01-02") w1 = Ok (Some found) /\
    startswith found (lit "2024-01-02") = true.
Proof.
  refine (todays_photo_is_found standard_fds raw_bytes (lit "2024-01-02")
            (lit "08-00-00") photos_home (pixel_frame 10 20 30)
            empty_home _ _ _).
  - vm_compute. reflexivity.
  - vm_compute. reflexivity.
  - vm_compute. reflexivity.
Defined.

End Photos.

(** ** More on the encoding job *)

Module JobFacts.
Import Py Os TimelapseView.

(** The photos [on_create] would find in a listing. *)
Definition photos_of (names : list str) : list str :=
  sorted (List.filter is_photo names).

(** A path whose name in the directory is no photo. *)
Definition not_a_photo (d path : str) : Prop :=
  forall n, name_in (join d []) path = Some n -> is_photo n = false.

(** *** Properties *)

(** X18: the job leaves every file but its own two alone: whatever the encoder
    does and whatever fails, a path other than the list file and the output
    file holds after the job what it held before, and no directory is added
    or removed. *)
Theorem job_spares_other_files (float_str : Q -> str) (e : env)
  (f : filesystem) (photos_dir : value) (photos : list str) (duration : Q)
  (path : str) :
  (forall d, photos_dir = VStr d ->
     path <> join d (lit "filelist.txt") /\
     path <> join d (lit "timelapse_" ++ timestamp e ++ lit ".mp4")) ->
  files (fs_after (job float_str e f photos_dir photos duration)) !! path
    = files f !! path /\
  dirs (fs_after (job float_str e f photos_dir photos duration)) = dirs f.
Proof.
  intros Hpath. unfold job.
  destruct (Qeq_bool duration 0); [done|].
  destruct photos_dir as [| | | |d| |]; try done. cbn [fspath].
  destruct (Hpath d eq_refl) as [Hl Ho].
  destruct (negb _); [done|].
  destruct (ffmpeg e) as [ex|returncode stderr output].
  - cbn [fs_after add_file files dirs]. by rewrite lookup_insert_ne.
  - unfold remove_quietly.
    destruct (can_remove e && _); destruct output; destruct (returncode =? 0);
      cbn [fs_after add_file del_file files dirs];
      rewrite ?lookup_delete_ne, ?lookup_insert_ne by done; done.
Qed.

Lemma job_spares_other_files_witness :
  files (fs_after (job two_tenths failing one_photo_fs (VStr photos_home)
                     [lit "2024-01-01_08-00-00.jpg"] (1 # 5)))
    !! join photos_home (lit "2024-01-01_08-00-00.jpg")
  = files one_photo_fs !! join photos_home (lit "2024-01-01_08-00-00.jpg").
Proof.
  refine (proj1 (job_spares_other_files two_tenths failing one_photo_fs
                   (VStr photos_home) [lit "2024-01-01_08-00-00.jpg"] (1 # 5)
                   (join photos_home (lit "2024-01-01_08-00-00.jpg")) _)).
  intros d Hd. injection Hd as <-.
  split; intros H; vm_compute in H; discriminate.
Defined.

Lemma startswith_split (k prefix : str) :
  startswith k prefix = true -> k = prefix ++ drop (length prefix) k.
Proof.
  revert k. induction prefix as [|c prefix IH]; intros k; [done|].
  destruct k as [|x k]; [done|]. cbn [startswith].
  destruct (N.eqb_spec c x); [|done]. subst. intros H.
  cbn [length drop app]. f_equal. by apply IH.
Qed.

Lemma name_in_path (prefix k n : str) :
  name_in prefix k = Some n -> k = prefix ++ n.
Proof.
  unfold name_in. destruct (startswith k prefix) eqn:Hs; [|done].
  destruct (_ && _); [|done]. intros [= <-]. by apply startswith_split.
Qed.

Lemma omap_NoDup (g : str -> option str) (l : list str) :
  (forall x y z, g x = Some z -> g y = Some z -> x = y) ->
  NoDup l -> NoDup (omap g l).
Proof.
  intros Hinj. induction 1 as [|x l Hx _ IH]; [constructor|].
  cbn [omap list_omap]. destruct (g x) as [z|] eqn:Hg; [|done].
  constructor; [|done]. intros Hin.
  apply list_elem_of_omap in Hin as (y & Hy & Hgy).
  by rewrite (Hinj x y z Hg Hgy) in Hx.
Qed.

Lemma keys_NoDup (m : gmap str str) :
  NoDup (List.map fst (map_to_list m)).
Proof. exact (NoDup_fst_map_to_list m). Qed.

Lemma photo_of_key (prefix : str) (m : gmap str str) (x : str) :
  x ∈ List.filter is_photo (omap (name_in prefix)
                              (List.map fst (map_to_list m))) <->
  is_photo x = true /\
  exists k, is_Some (m !! k) /\ name_in prefix k = Some x.
Proof.
  rewrite list_elem_of_In, filter_In, <- list_elem_of_In, list_elem_of_omap.
  split.
  - intros [(k & Hk & Hg) Hp]. split; [done|]. exists k. split; [|done].
    apply list_elem_of_In, in_map_iff in Hk as ([k' v] & <- & Hkv).
    apply list_elem_of_In, elem_of_map_to_list in Hkv. eauto.
  - intros [Hp (k & [v Hv] & Hg)]. split; [|done]. exists k. split; [|done].
    apply list_elem_of_In, in_map_iff. exists (k, v). split; [done|].
    by apply list_elem_of_In, elem_of_map_to_list.
Qed.

Lemma photos_agree (d : str) (f f' : filesystem) :
  dirs f' = dirs f ->
  (forall k, files f' !! k = files f !! k \/ not_a_photo d k) ->
  forall names,
    listdir f d = Ok names ->
    exists names',
      listdir f' d = Ok names' /\ photos_of names' = photos_of names.
Proof.
  intros Hdirs Hfiles names. unfold listdir. rewrite Hdirs.
  destruct (bool_decide (d ∈ dirs f)); [|done]. intros [= <-].
  eexists. split; [reflexivity|]. unfold photos_of.
  apply TimelapseFacts.sorted_of_perm.
  rewrite !omap_app, !List.filter_app. apply Permutation_app_tail.
  assert (forall m : gmap str str,
            NoDup (List.filter is_photo (omap (name_in (join d []))
                                           (List.map fst (map_to_list m)))))
    as Hnd.
  { intros m. apply NoDup_ListNoDup, List.NoDup_filter, NoDup_ListNoDup.
    apply omap_NoDup; [|apply keys_NoDup].
    intros x y z Hx Hy. apply name_in_path in Hx, Hy. congruence. }
  apply NoDup_Permutation; [apply Hnd.. |].
  intros x. rewrite !photo_of_key.
  split; intros [Hp (k & Hk & Hg)]; (split; [done|]); exists k;
    (split; [|done]); destruct (Hfiles k) as [Heq|Hnot];
    try (by rewrite Heq in * ); try (by rewrite <- Heq in * );
    rewrite (Hnot x Hg) in Hp; done.
Qed.

Lemma endswith_other (a s t : str) :
  length s = length t -> s <> t -> endswith (a ++ s) t = false.
Proof.
  intros Hl Hne. unfold endswith. apply bool_decide_eq_false.
  rewrite length_app, <- Hl.
  replace (length a + length s - length s)%nat with (length a) by lia.
  by rewrite drop_app_length.
Qed.

Lemma own_files_not_photos (d stamp : str) :
  not_a_photo d (join d (lit "filelist.txt")) /\
  not_a_photo d (join d (lit "timelapse_" ++ stamp ++ lit ".mp4")).
Proof.
  split; intros n Hn; apply name_in_path in Hn;
    rewrite Photos.join_as_prefix in Hn by done;
    apply app_inv_head in Hn; subst n.
  - by vm_compute.
  - unfold is_photo, endswith_any. cbn [existsb].
    rewrite !app_assoc, !endswith_other; done.
Qed.

(** X19: making a timelapse does not change the photos of the next one: after a
    job, however it ends, [on_create] finds in the photos directory the
    photos it found before -- neither the list file nor the video counts as
    a photo, and no photo is removed. *)
Theorem job_keeps_photos (float_str : Q -> str) (e : env) (f : filesystem)
  (d : str) (photos : list str) (duration : Q) (names : list str) :
  listdir f d = Ok names ->
  exists names',
    listdir (fs_after (job float_str e f (VStr d) photos duration)) d
      = Ok names' /\
    sorted (List.filter is_photo names') = sorted (List.filter is_photo names).
Proof.
  apply photos_agree.
  - refine (proj2 (job_spares_other_files float_str e f (VStr d) photos
                     duration [] _)).
    intros d' [= <-].
    split; intros Heq; symmetry in Heq;
      rewrite Photos.join_as_prefix in Heq by done;
      apply app_eq_nil in Heq as [_ Heq]; vm_compute in Heq; discriminate.
  - intros k.
    destruct (decide (k = join d (lit "filelist.txt"))) as [->|Hl];
      [right; apply (own_files_not_photos d [])|].
    destruct (decide (k = join d (lit "timelapse_" ++ timestamp e
                                     ++ lit ".mp4"))) as [->|Ho];
      [right; apply (own_files_not_photos d (timestamp e))|].
    left. refine (proj1 (job_spares_other_files float_str e f (VStr d) photos
                           duration k _)).
    by intros d' [= <-].
Qed.

Lemma job_keeps_photos_witness :
  exists names',
    listdir (fs_after (job two_tenths failing one_photo_fs (VStr photos_home)
                         [lit "2024-01-01_08-00-00.jpg"] (1 # 5)))
      photos_home = Ok names' /\
    sorted (List.filter is_photo names')
      = sorted (List.filter is_photo [lit "2024-01-01_08-00-00.jpg"]).
Proof.
  assert (listdir one_photo_fs photos_home
          = Ok [lit "2024-01-01_08-00-00.jpg"]) as H
    by (vm_compute; reflexivity).
  exact (job_keeps_photos two_tenths failing one_photo_fs photos_home
           [lit "2024-01-01_08-00-00.jpg"] (1 # 5) _ H).
Defined.

End JobFacts.
